(** * Shallow embedding of SFTP-to-Google-Shared-Drive.py

    The batch script moves ZIP archives from an SFTP server to a Google
    Shared Drive folder.  This development models, from the Python source:
    - [download_files_from_sftp]  (fetch-then-delete loop),
    - [process_zip_archive]       (extraction, index location, renaming),
    - [upload_extracted_files]    (index-CSV upload filter),
    - [aggregate_index_csv]       (master index concatenation and sort),
    - the [__main__] block        (exception flow of the whole run).

    Modelling conventions.
    - Python [str] values that are file names or CSV fields are Rocq
      [string]s, the UTF-8 encoding of the Python text.  [.lower()] in a
      suffix test ([.lower().endswith('.csv')]) is modelled on ASCII
      letters, which gives the same answer as Python's [str.lower]; the
      lower-casing of the sort keys is a parameter (see [Aggregate]).
    - Outcomes of [os.rename] and [os.listdir] are inputs of the model: a
      name with a '/' (an "IC ID Number" of "N/A", say), a NUL byte or an
      over-long name make [os.rename] raise, and a directory can become
      unreadable.
    - File contents are lists of bytes (a byte is a [Z] in [0, 255]);
      text decoded from them is a list of code points ([list Z]).
    - A directory is the list of the names it contains (relative to the
      directory, compared exactly).
    - Outcomes of external collaborators (SFTP, Drive, the file system)
      that the script cannot influence are inputs of the model.
    - Log messages are kept as events so that "logged, not fatal" can be
      stated. *)

From Stdlib Require Import List String Ascii ZArith Bool Lia Permutation
  Sorted.
From Stdlib Require Import Numbers.DecimalString Numbers.DecimalNat.
Import ListNotations.
Open Scope string_scope.

(* ================================================================= *)
(** ** Python string helpers *)

Module Py.

(** [str.lower()] on ASCII letters.  The model uses it only where a name
    is tested for the suffix ".csv": Python's [str.lower] maps no
    non-ASCII character to a string ending in '.', 'c', 's' or 'v', and
    UTF-8 encodes an ASCII character by itself, so the test has the same
    result. *)
Definition lower_char (c : ascii) : ascii :=
  let n := nat_of_ascii c in
  if (65 <=? n)%nat && (n <=? 90)%nat then ascii_of_nat (n + 32) else c.

Fixpoint lower (s : string) : string :=
  match s with
  | EmptyString => EmptyString
  | String c s' => String (lower_char c) (lower s')
  end.

Fixpoint is_prefix (p s : string) : bool :=
  match p, s with
  | EmptyString, _ => true
  | String c p', String d s' => Ascii.eqb c d && is_prefix p' s'
  | String _ _, EmptyString => false
  end.

(** [s.endswith(suf)]. *)
Definition endswith (s suf : string) : bool :=
  (String.length suf <=? String.length s)%nat &&
  String.eqb (substring (String.length s - String.length suf)
                        (String.length suf) s) suf.

(** [x in l] for a list of names. *)
Definition mem (x : string) (l : list string) : bool :=
  existsb (String.eqb x) l.

(** [str(n)] for a non-negative [int]. *)
Definition str_nat (n : nat) : string :=
  NilEmpty.string_of_uint (Nat.to_uint n).

(** [p.rfind(c)] on a list of characters: last index, or -1. *)
Fixpoint rfind_go (c : ascii) (l : list ascii) (i : Z) (acc : Z) : Z :=
  match l with
  | [] => acc
  | d :: l' => rfind_go c l' (i + 1) (if Ascii.eqb c d then i else acc)
  end.

Definition rfind (c : ascii) (l : list ascii) : Z := rfind_go c l 0 (-1).

(** [genericpath._splitext(p, sep, None, extsep)]:
    <<
    sepIndex = p.rfind(sep)
    dotIndex = p.rfind(extsep)
    if dotIndex > sepIndex:
        filenameIndex = sepIndex + 1
        while filenameIndex < dotIndex:
            if p[filenameIndex:filenameIndex+1] != extsep:
                return p[:dotIndex], p[dotIndex:]
            filenameIndex += 1
    return p, p[:0]
    >> *)
Definition splitext_gen (sep extsep : ascii) (p : string) : string * string :=
  let l := list_ascii_of_string p in
  let sepIndex := rfind sep l in
  let dotIndex := rfind extsep l in
  if (sepIndex <? dotIndex)%Z then
    let between := firstn (Z.to_nat (dotIndex - (sepIndex + 1)))
                          (skipn (Z.to_nat (sepIndex + 1)) l) in
    if existsb (fun c => negb (Ascii.eqb c extsep)) between then
      (string_of_list_ascii (firstn (Z.to_nat dotIndex) l),
       string_of_list_ascii (skipn (Z.to_nat dotIndex) l))
    else (p, "")
  else (p, "").

(** [os.path.splitext] of [posixpath]. *)
Definition splitext (p : string) : string * string := splitext_gen "/" "." p.

End Py.

(* ================================================================= *)
(** ** [csv.DictReader] rows *)

Module Dict.

(** A parsed CSV file is its list of rows, each a list of fields. *)
Definition row := list string.

(** Last index of [k] in the header. *)
Fixpoint last_index_go (k : string) (hdr : list string) (i : nat)
    (acc : option nat) : option nat :=
  match hdr with
  | [] => acc
  | h :: hdr' =>
      last_index_go k hdr' (S i) (if String.eqb h k then Some i else acc)
  end.

(** [row.get(k)] on the dict that [DictReader] builds:
    [d = dict(zip(fieldnames, row))], then [d[key] = restval] (None) for
    each [key in fieldnames[len(row):]].  For a key occurring several times
    in the header the last occurrence wins. *)
Definition get (hdr : list string) (r : row) (k : string) : option string :=
  match last_index_go k hdr 0 None with
  | None => None
  | Some j => if (j <? List.length r)%nat then nth_error r j else None
  end.

(** The rows a [DictReader] yields: the first row is the header, and empty
    rows ([while row == []]) are skipped. *)
Definition dict_rows (csv : list row) : list (list string * row) :=
  match csv with
  | [] => []
  | hdr :: rest =>
      map (fun r => (hdr, r)) (filter (fun r => negb (List.length r =? 0)%nat) rest)
  end.

(** Python truthiness of [row.get(k)]: [None] and [""] are false. *)
Definition present (v : option string) : option string :=
  match v with
  | Some s => if String.eqb s "" then None else Some s
  | None => None
  end.

End Dict.

(* ================================================================= *)
(** ** Renaming pass of [process_zip_archive] *)

Module Rename.
Import Py.

Definition sentinel := "not admitted yet".

Inductive event :=
  | Renamed (orig new : string) (counter : nat)
  | MissingData
  | NotFound (orig : string)
  | RenameFailed (orig new : string).

(** The collision loop
    <<
    counter = 1
    while os.path.exists(candidate_path):
        candidate_filename = f"{last}, {first} - {ic_id} ({counter}){ext}"
        candidate_path = os.path.join(extract_dir, candidate_filename)
        counter += 1
    >>
    [mk counter] is [candidate_filename].  [fuel] bounds the number of
    existence checks; [rename_row] gives enough of it for the loop to
    leave through its condition (lemma [resolve_fuel_enough]). *)
Fixpoint resolve (fuel : nat) (dir : list string) (mk : nat -> string)
    (counter : nat) (candidate : string) : string * nat :=
  match fuel with
  | O => (candidate, counter)
  | S f =>
      if mem candidate dir then resolve f dir mk (S counter) (mk counter)
      else (candidate, counter)
  end.

Definition ic_of (hdr : list string) (r : Dict.row) : string :=
  match Dict.present (Dict.get hdr r "IC ID Number") with
  | Some v => v
  | None => sentinel
  end.

(** [new_filename = f"{last}, {first} - {ic_id}{ext}"] *)
Definition base_name (last first ic ext : string) : string :=
  last ++ ", " ++ first ++ " - " ++ ic ++ ext.

(** [f"{last}, {first} - {ic_id} ({counter}){ext}"] *)
Definition seq_name (last first ic ext : string) (n : nat) : string :=
  last ++ ", " ++ first ++ " - " ++ ic ++ " (" ++ str_nat n ++ ")" ++ ext.

Definition remove_name (x : string) (dir : list string) : list string :=
  filter (fun y => negb (String.eqb y x)) dir.

Section Pass.

(** [rename_ok dir src dst]: whether [os.rename(src, dst)] succeeds in the
    extraction directory holding [dir]. *)
Variable rename_ok : list string -> string -> string -> bool.

(** One iteration of [for row in reader:]: the directory after it, the
    events, and whether an exception leaves the iteration ([os.rename]
    raising; it is caught by the outer [try] of [process_zip_archive]). *)
Definition rename_row (dir : list string) (hdr : list string) (r : Dict.row)
    : list string * list event * bool :=
  match Dict.present (Dict.get hdr r "File name"),
        Dict.present (Dict.get hdr r "Preferred"),
        Dict.present (Dict.get hdr r "Last") with
  | Some original_file, Some first, Some last =>
      let ic_id := ic_of hdr r in
      let ext := snd (splitext original_file) in
      let new_filename := base_name last first ic_id ext in
      let '(new_file, counter) :=
        resolve (S (S (List.length dir))) dir (seq_name last first ic_id ext)
                1 new_filename in
      if mem original_file dir then
        if rename_ok dir original_file new_file then
          (new_file :: remove_name original_file dir,
           [Renamed original_file new_file counter], false)
        else (dir, [RenameFailed original_file new_file], true)
      else (dir, [NotFound original_file], false)
  | _, _, _ => (dir, [MissingData], false)
  end.

(** The whole [for row in reader:] loop over the rows of the index; an
    exception ends it, and the rows after it are not processed. *)
Fixpoint rename_rows (dir : list string) (rows : list (list string * Dict.row))
    : list string * list event * bool :=
  match rows with
  | [] => (dir, [], false)
  | (hdr, r) :: rows' =>
      let '(dir1, ev1, raised) := rename_row dir hdr r in
      if raised then (dir1, ev1, true) else
      let '(dir2, ev2, raised2) := rename_rows dir1 rows' in
      (dir2, (ev1 ++ ev2)%list, raised2)
  end.

End Pass.

End Rename.

(* ================================================================= *)
(** ** Bytes and strict UTF-8 decoding *)

Module Utf8.
Local Open Scope Z_scope.

(** For a lead byte: the length of the sequence and the range allowed for
    its second byte (Python's strict decoder, RFC 3629: no overlong forms,
    no surrogates, nothing above U+10FFFF). *)
Definition lead_info (b : Z) : option (nat * Z * Z) :=
  if (0 <=? b) && (b <=? 127) then Some (1%nat, 0, 0)
  else if (194 <=? b) && (b <=? 223) then Some (2%nat, 128, 191)
  else if b =? 224 then Some (3%nat, 160, 191)
  else if (225 <=? b) && (b <=? 236) then Some (3%nat, 128, 191)
  else if b =? 237 then Some (3%nat, 128, 159)
  else if (238 <=? b) && (b <=? 239) then Some (3%nat, 128, 191)
  else if b =? 240 then Some (4%nat, 144, 191)
  else if (241 <=? b) && (b <=? 243) then Some (4%nat, 128, 191)
  else if b =? 244 then Some (4%nat, 128, 143)
  else None.

Definition is_cont (b : Z) : bool := (128 <=? b)%Z && (b <=? 191)%Z.

(** The bytes after the lead byte that are available: the first in
    [lo, hi], the others continuation bytes. *)
Definition valid_tail (lo hi : Z) (t : list Z) : bool :=
  match t with
  | [] => true
  | t1 :: ts => (lo <=? t1)%Z && (t1 <=? hi)%Z && forallb is_cont ts
  end.

Definition code_point (b : Z) (t : list Z) : Z :=
  match t with
  | [] => b
  | [t1] => Z.lor (Z.shiftl (Z.land b 31) 6) (Z.land t1 63)
  | [t1; t2] => Z.lor (Z.shiftl (Z.land b 15) 12)
                  (Z.lor (Z.shiftl (Z.land t1 63) 6) (Z.land t2 63))
  | t1 :: t2 :: t3 :: _ =>
      Z.lor (Z.shiftl (Z.land b 7) 18)
        (Z.lor (Z.shiftl (Z.land t1 63) 12)
           (Z.lor (Z.shiftl (Z.land t2 63) 6) (Z.land t3 63)))
  end.

(** Result of [codecs.utf_8_decode(data, 'strict', final)]: the decoded
    code points and the undecoded tail (a valid but incomplete sequence,
    kept for the next call), or a [UnicodeDecodeError]. *)
Inductive dec_result :=
  | DecOk (cps : list Z) (pending : list Z)
  | DecErr.

Fixpoint decode (fuel : nat) (final : bool) (bs : list Z) : dec_result :=
  match fuel with
  | O => DecOk [] bs
  | S f =>
      match bs with
      | [] => DecOk [] []
      | b :: rest =>
          match lead_info b with
          | None => DecErr
          | Some (n, lo, hi) =>
              let t := firstn (n - 1)%nat rest in
              if valid_tail lo hi t then
                if (List.length t <? n - 1)%nat then
                  (if final then DecErr else DecOk [] bs)
                else
                  match decode f final (skipn (n - 1)%nat rest) with
                  | DecOk cps p => DecOk (code_point b t :: cps) p
                  | DecErr => DecErr
                  end
              else DecErr
          end
      end
  end.

(** [data.decode('utf-8')]. *)
Definition decode_all (bs : list Z) : option (list Z) :=
  match decode (S (List.length bs))%nat true bs with
  | DecOk cps _ => Some cps
  | DecErr => None
  end.

(** The code points of an ASCII string literal. *)
Definition cps_of_string (s : string) : list Z :=
  map (fun c => Z.of_nat (nat_of_ascii c)) (list_ascii_of_string s).

(** The bytes of an ASCII string literal. *)
Definition bytes_of_string (s : string) : list Z := cps_of_string s.

(** [pat in text] on code points. *)
Fixpoint cp_prefix (p t : list Z) : bool :=
  match p, t with
  | [], _ => true
  | x :: p', y :: t' => (x =? y)%Z && cp_prefix p' t'
  | _ :: _, [] => false
  end.

Fixpoint contains (p t : list Z) : bool :=
  cp_prefix p t ||
  match t with
  | [] => false
  | _ :: t' => contains p t'
  end.

Definition marker := cps_of_string "File name".

End Utf8.

(* ================================================================= *)
(** ** Locating the index in an archive ([process_zip_archive]) *)

Module Zip.
Import Py.

Record entry := { e_name : string; e_bytes : list Z }.

(** [csvfile.readline()] on a [ZipExtFile]: the bytes up to and including
    the first [b'\n'], or all of them. *)
Fixpoint bin_readline (bs : list Z) : list Z :=
  match bs with
  | [] => []
  | b :: bs' => if (b =? 10)%Z then [b] else b :: bin_readline bs'
  end.

Inductive event :=
  | HeaderDecodeError (name : string)
  | IndexNotFound
  | FoundIndex (name : string)
  | ArchiveError.

(** <<
    for file in zip_ref.namelist():
        if file.lower().endswith('.csv'):
            with zip_ref.open(file) as csvfile:
                try:
                    header_line = csvfile.readline().decode('utf-8')
                except Exception as e:
                    logging.error(...); continue
                if "File name" in header_line:
                    index_csv_filename = file; break
    >> *)
Fixpoint locate (es : list entry) : option string * list event :=
  match es with
  | [] => (None, [])
  | e :: es' =>
      if endswith (lower (e_name e)) ".csv" then
        match Utf8.decode_all (bin_readline (e_bytes e)) with
        | None =>
            let '(res, ev) := locate es' in
            (res, HeaderDecodeError (e_name e) :: ev)
        | Some header_line =>
            if Utf8.contains Utf8.marker header_line then (Some (e_name e), [])
            else locate es'
        end
      else locate es'
  end.

(** The test [process_zip_archive] applies to an entry. *)
Definition qualifies (e : entry) : bool :=
  endswith (lower (e_name e)) ".csv" &&
  match Utf8.decode_all (bin_readline (e_bytes e)) with
  | Some header_line => Utf8.contains Utf8.marker header_line
  | None => false
  end.

(** [zip_ref.extractall(extract_dir)]: every entry is written to the
    directory, replacing a file of the same name. *)
Definition extract_all (dir : list string) (es : list entry) : list string :=
  fold_left (fun d e => if mem (e_name e) d then d else (d ++ [e_name e])%list) es dir.

(** [process_zip_archive]: an archive that cannot be opened raises inside
    the outer [try] and yields [None].  The index rows are read with
    [parse_csv], the [csv] module's parse of the extracted index file:
    the rows read and whether reading stopped with an exception.  An
    exception of the renaming loop ([os.rename]) or of the reading is
    logged by the outer [except]; [index_csv_path] was set before the loop
    and is returned. *)
Definition process_zip_archive
    (parse_csv : list Z -> list (list string) * bool)
    (rename_ok : list string -> string -> string -> bool)
    (readable : bool) (es : list entry) (dir : list string)
    : list string * option string * list event :=
  if negb readable then (dir, None, [ArchiveError]) else
  let dir1 := extract_all dir es in
  let '(found, ev1) := locate es in
  match found with
  | None => (dir1, None, (ev1 ++ [IndexNotFound])%list)
  | Some name =>
      let content := match find (fun e => String.eqb (e_name e) name) (rev es) with
                     | Some e => e_bytes e
                     | None => []
                     end in
      let '(rows, err) := parse_csv content in
      let '(dir2, _, raised) :=
        Rename.rename_rows rename_ok dir1 (Dict.dict_rows rows) in
      (dir2, Some name,
       (ev1 ++ FoundIndex name ::
          (if raised || err then [ArchiveError] else []))%list)
  end.

End Zip.

(* ================================================================= *)
(** ** Upload filter ([upload_extracted_files]) *)

Module Upload.
Import Py Utf8.

(** [open(file_path, 'r', encoding='utf-8').readline()]: a [TextIOWrapper]
    reads the file in chunks of [chunk] bytes (8192 by default), decodes
    each whole chunk with an incremental strict UTF-8 decoder, translates
    [\r\n] and [\r] to [\n] (holding a final [\r] back until the next
    chunk), and stops at the first chunk whose decoded text holds [\n].
    At end of file the decoder is flushed with [final=True] and the text
    accumulated so far is the line.  [None] is a raised
    [UnicodeDecodeError]. *)
Fixpoint translate (t : list Z) : list Z :=
  match t with
  | 13%Z :: 10%Z :: t' => 10%Z :: translate t'
  | 13%Z :: t' => 10%Z :: translate t'
  | x :: t' => x :: translate t'
  | [] => []
  end.

Fixpoint upto_lf (t : list Z) : option (list Z) :=
  match t with
  | [] => None
  | x :: t' =>
      if (x =? 10)%Z then Some [x]
      else option_map (cons x) (upto_lf t')
  end.

Definition ends_cr (t : list Z) : bool :=
  match rev t with
  | 13%Z :: _ => true
  | _ => false
  end.

Fixpoint readline_go (fuel chunk : nat) (rest pend : list Z) (pendingcr : bool)
    (acc : list Z) : option (list Z) :=
  match fuel with
  | O => Some acc
  | S f =>
      let input := firstn chunk rest in
      let final := match input with [] => true | _ => false end in
      let data := (pend ++ input)%list in
      match decode (S (List.length data)) final data with
      | DecErr => None
      | DecOk out pend' =>
          if final then Some acc else
          let flush := pendingcr && negb (match out with [] => true | _ => false end) in
          let out1 := if flush then (13%Z :: out) else out in
          let pcr1 := if flush then false else pendingcr in
          let '(out2, pcr2) :=
            if ends_cr out1 then (removelast out1, true) else (out1, pcr1) in
          let text := (acc ++ translate out2)%list in
          match upto_lf text with
          | Some line => Some line
          | None => readline_go f chunk (skipn chunk rest) pend' pcr2 text
          end
      end
  end.

Definition text_readline (chunk : nat) (bs : list Z) : option (list Z) :=
  readline_go (S (S (List.length bs))) chunk bs [] false [].

Definition chunk_size := (2 ^ 13)%nat.  (* 8192 *)

Record dir_entry := {
  d_name : string;
  d_isfile : bool;
  d_bytes : list Z }.

Inductive event :=
  | Skipped (name : string)
  | ReadError (name : string)
  | Uploading (name : string).

(** <<
    for file in os.listdir(extraction_dir):
        file_path = os.path.join(extraction_dir, file)
        if os.path.isfile(file_path):
            if file.lower().endswith('.csv'):
                try:
                    with open(file_path, 'r', encoding='utf-8') as f:
                        first_line = f.readline()
                    if "File name" in first_line:
                        logging.info(...); continue
                except Exception as e:
                    logging.error(...)
            upload_file_to_drive(file_path, drive_folder_id, drive_service)
    >> *)
Definition file_step (d : dir_entry) : list event :=
  if d_isfile d then
    if endswith (lower (d_name d)) ".csv" then
      match text_readline chunk_size (d_bytes d) with
      | Some first_line =>
          if contains marker first_line then [Skipped (d_name d)]
          else [Uploading (d_name d)]
      | None => [ReadError (d_name d); Uploading (d_name d)]
      end
    else [Uploading (d_name d)]
  else [].

Definition upload_extracted_files (listing : list dir_entry) : list event :=
  flat_map file_step listing.

Definition uploaded (listing : list dir_entry) : list string :=
  flat_map (fun ev => match ev with Uploading n => [n] | _ => [] end)
           (upload_extracted_files listing).

(** The files [upload_extracted_files] does not upload although they are
    regular files. *)
Definition skip_pred (d : dir_entry) : bool :=
  endswith (lower (d_name d)) ".csv" &&
  match text_readline chunk_size (d_bytes d) with
  | Some first_line => contains marker first_line
  | None => false
  end.

End Upload.

(* ================================================================= *)
(** ** [aggregate_index_csv] *)

Module Aggregate.
Import Py.

Definition row := list string.

(** An index CSV as [csv.reader] yields it: its rows, and whether reading
    raises after them (a file that cannot be opened has no rows and
    raises). *)
Record idx_file := {
  if_path : string;
  if_rows : list row;
  if_error : bool }.

Inductive event :=
  | HeaderMismatch (path : string)
  | ReadError (path : string)
  | SortError
  | Written
  | WriteError.

Fixpoint row_eqb (a b : row) : bool :=
  match a, b with
  | [], [] => true
  | x :: a', y :: b' => String.eqb x y && row_eqb a' b'
  | _, _ => false
  end.

(** One iteration of [for idx_csv in index_csv_paths:].
    <<
    header = next(reader)
    if master_header is None:
        master_header = header; master_rows.append(header)
    elif header != master_header:
        logging.warning(...)
    for row in reader:
        master_rows.append(row)
    >>
    [next(reader)] on a file without rows raises [StopIteration], which
    the [except Exception] catches. *)
Definition read_file (fl : idx_file) (master_header : option row)
    (master_rows : list row) : option row * list row * list event :=
  match if_rows fl with
  | [] => (master_header, master_rows, [ReadError (if_path fl)])
  | header :: rest =>
      let '(mh, mr, ev) :=
        match master_header with
        | None => (Some header, (master_rows ++ [header])%list, [])
        | Some m =>
            (Some m, master_rows,
             if row_eqb header m then [] else [HeaderMismatch (if_path fl)])
        end in
      (mh, (mr ++ rest)%list,
       (ev ++ (if if_error fl then [ReadError (if_path fl)] else []))%list)
  end.

Fixpoint collect (files : list idx_file) (master_header : option row)
    (master_rows : list row) : option row * list row * list event :=
  match files with
  | [] => (master_header, master_rows, [])
  | fl :: fs =>
      let '(mh, mr, ev1) := read_file fl master_header master_rows in
      let '(mh', mr', ev2) := collect fs mh mr in
      (mh', mr', (ev1 ++ ev2)%list)
  end.

(** [header.index(x)]: the first occurrence, [None] for [ValueError]. *)
Fixpoint index_of (x : string) (l : list string) : option nat :=
  match l with
  | [] => None
  | y :: l' =>
      if String.eqb y x then Some 0 else option_map S (index_of x l')
  end.

Definition key := (string * string * string)%type.

Section Sort.

(** Python's [str.lower], on the UTF-8 encoding of a field.  Python
    lower-cases every cased letter, not only A to Z (U+00C9 to U+00E9,
    say), so the lower-casing is a parameter of the sort and
    what is proved below holds for every lower-casing function, Python's
    among them. *)
Variable str_lower : string -> string.

(** [(r[last_idx].lower(), r[preferred_idx].lower(),
      r[file_name_idx].lower())]; [None] for [IndexError]. *)
Definition row_key (li pi fi : nat) (r : row) : option key :=
  match nth_error r li, nth_error r pi, nth_error r fi with
  | Some a, Some b, Some c => Some (str_lower a, str_lower b, str_lower c)
  | _, _, _ => None
  end.

(** [sorted(...)] first computes the key of every element. *)
Fixpoint decorate (li pi fi : nat) (rows : list row) : option (list (key * row)) :=
  match rows with
  | [] => Some []
  | r :: rows' =>
      match row_key li pi fi r, decorate li pi fi rows' with
      | Some k, Some d => Some ((k, r) :: d)
      | _, _ => None
      end
  end.

(** Python's comparison of tuples of [str]: lexicographic, each component
    compared character by character.  Comparing UTF-8 encodings byte by
    byte orders them as Python orders [str] values, by code point. *)
Definition key_compare (k1 k2 : key) : comparison :=
  let '(a1, b1, c1) := k1 in
  let '(a2, b2, c2) := k2 in
  match String.compare a1 a2 with
  | Eq => match String.compare b1 b2 with
          | Eq => String.compare c1 c2
          | o => o
          end
  | o => o
  end.

Definition key_le (k1 k2 : key) : bool :=
  match key_compare k1 k2 with Gt => false | _ => true end.

(** A stable sort by key ([sorted] is stable): insertion places an element
    before the first element whose key is not smaller. *)
Fixpoint insert (x : key * row) (l : list (key * row)) : list (key * row) :=
  match l with
  | [] => [x]
  | y :: l' => if key_le (fst x) (fst y) then x :: y :: l' else y :: insert x l'
  end.

Fixpoint isort (l : list (key * row)) : list (key * row) :=
  match l with
  | [] => []
  | x :: l' => insert x (isort l')
  end.

Fixpoint keys_sorted (ks : list key) : bool :=
  match ks with
  | k1 :: ((k2 :: _) as ks') => key_le k1 k2 && keys_sorted ks'
  | _ => true
  end.

(** The [try] block of the sort: [None] when it raises. *)
Definition sort_rows (header : row) (data : list row) : option (list row) :=
  match index_of "Last" header, index_of "Preferred" header,
        index_of "File name" header with
  | Some li, Some pi, Some fi =>
      match decorate li pi fi data with
      | Some d => Some (map snd (isort d))
      | None => None
      end
  | _, _, _ => None
  end.

(** Data rows whose keys can be computed and are in ascending order. *)
Definition rows_sorted (header : row) (data : list row) : bool :=
  match index_of "Last" header, index_of "Preferred" header,
        index_of "File name" header with
  | Some li, Some pi, Some fi =>
      match decorate li pi fi data with
      | Some d => keys_sorted (map fst d)
      | None => false
      end
  | _, _, _ => false
  end.

(** [aggregate_index_csv master_csv_path index_csv_paths]; [write_ok] is
    whether opening the output file succeeds.  The result is the list of
    rows written ([None] when nothing is written) and the log. *)
Definition aggregate_index_csv (files : list idx_file) (write_ok : bool)
    : option (list row) * list event :=
  let '(_, master_rows, ev) := collect files None [] in
  let '(out, ev2) :=
    if (1 <? List.length master_rows)%nat then
      match master_rows with
      | header :: data =>
          match sort_rows header data with
          | Some sorted => (header :: sorted, [])
          | None => (master_rows, [SortError])
          end
      | [] => (master_rows, [])
      end
    else (master_rows, []) in
  if write_ok then (Some out, (ev ++ ev2 ++ [Written])%list)
  else (None, (ev ++ ev2 ++ [WriteError])%list).

End Sort.

(** The header and the data rows of an index file. *)
Definition header_of (f : idx_file) : row := hd [] (if_rows f).
Definition data_of (f : idx_file) : list row := tl (if_rows f).

(** Order of decorated rows by key. *)
Definition R (x y : key * row) : Prop := key_le (fst x) (fst y) = true.

End Aggregate.

(* ================================================================= *)
(** ** [download_files_from_sftp] *)

Module Sftp.
Import Py.

(** The server and the local file system as the function meets them:
    whether [ssh.connect]/[open_sftp] succeed, what [sftp.listdir] returns
    ([None] when it raises), [re.fullmatch(filename_mask, f)], whether
    [local_dir] exists or [os.makedirs] succeeds, and which [sftp.get] and
    [sftp.remove] calls succeed. *)
Record sftp_env := {
  connect_ok : bool;
  listing : option (list string);
  mask : string -> bool;
  local_dir_ok : bool;
  get_ok : string -> bool;
  remove_ok : string -> bool }.

Inductive event :=
  | Get (name : string) (ok : bool)
  | Remove (name : string) (ok : bool).

(** [os.path.join(a, b)] of [posixpath] for one component. *)
Definition path_join (a b : string) : string :=
  if is_prefix "/" b then b
  else if String.eqb a "" || endswith a "/" then a ++ b
  else a ++ "/" ++ b.

(** <<
    for filename in matching_files:
        ...
        try:
            sftp.get(remote_file_path, local_file_path)
            downloaded_files.append(local_file_path)
            try:
                sftp.remove(remote_file_path)
            except Exception as delete_err:
                logging.error(...)
        except Exception as download_err:
            logging.error(...)
    >> *)
Fixpoint download_loop (env : sftp_env) (local_dir : string) (fs : list string)
    : list string * list event :=
  match fs with
  | [] => ([], [])
  | f :: fs' =>
      let '(here, ev) :=
        if get_ok env f then
          ([path_join local_dir f], [Get f true; Remove f (remove_ok env f)])
        else ([], [Get f false]) in
      let '(rest, ev') := download_loop env local_dir fs' in
      ((here ++ rest)%list, (ev ++ ev')%list)
  end.

(** The returned list and the calls made on the server.  Every early
    return, and the outer [except Exception], return the (then empty)
    [downloaded_files]. *)
Definition download_files_from_sftp (env : sftp_env) (local_dir : string)
    : list string * list event :=
  if connect_ok env then
    match listing env with
    | None => ([], [])
    | Some files =>
        match filter (mask env) files with
        | [] => ([], [])
        | matching =>
            if local_dir_ok env then download_loop env local_dir matching
            else ([], [])
        end
    end
  else ([], []).

End Sftp.

(* ================================================================= *)
(** ** The top level ([__main__] and [process_all_zip_archives]) *)

Module Main.
Import Py Upload.

(** Calls that reach the outside world, in order. *)
Inductive ev :=
  | UploadCall (name : string)
  | UploadDone (name : string)
  | UploadError (name : string)
  | Aggregated
  | CleanedUp.

Inductive outcome :=
  | Exit (code : nat)
  | Crash
  | Finished.

(** State (the calls so far) and exceptions: [None] is an exception
    propagating. *)
Definition M (A : Type) : Type := list ev -> option A * list ev.

Definition ret {A : Type} (a : A) : M A := fun tr => (Some a, tr).

Definition bind {A B : Type} (m : M A) (k : A -> M B) : M B :=
  fun tr => match m tr with
            | (Some a, tr') => k a tr'
            | (None, tr') => (None, tr')
            end.

Definition raise {A : Type} : M A := fun tr => (None, tr).

Definition emit (e : ev) : M unit := fun tr => (Some tt, (tr ++ [e])%list).

Local Notation "x <- m ;; k" := (bind m (fun x => k))
  (at level 61, m at next level, right associativity).

(** One extracted archive: whether its extraction directory exists or
    [os.makedirs] succeeds, what [os.listdir] returns ([None] when it
    raises), which files [MediaFileUpload] can open and which
    [files().create(...).execute()] calls succeed, and the index
    [process_zip_archive] returns (it catches all its errors). *)
Record archive := {
  a_dir_ok : bool;
  a_listing : option (list dir_entry);
  a_media_ok : string -> bool;
  a_create_ok : string -> bool;
  a_index : option string }.

(** The run: the list [download_files_from_sftp] returns, whether
    [init_drive_service] returns, the archives [glob] finds, whether
    [CONSOLIDATED_DIR] exists or [os.makedirs] succeeds, whether
    [aggregate_index_csv] can open the master CSV for writing (it catches
    the failure, and then no file exists for [MediaFileUpload] to open),
    whether the master CSV's [create] call succeeds, and whether
    [os.listdir(CONSOLIDATED_DIR)] in [cleanup_directory] succeeds (it is
    outside any [try]; the other steps of [cleanup_local_files] catch
    their errors). *)
Record run_env := {
  downloaded : list string;
  drive_ok : bool;
  zip_files : list archive;
  consolidated_ok : bool;
  master_write_ok : bool;
  master_create_ok : bool;
  cleanup_list_ok : bool }.

(** [upload_file_to_drive]: [MediaFileUpload(local_file, ...)] opens the
    file before the [try]; the [create(...).execute()] is inside it. *)
Definition upload_file_to_drive (media_ok create_ok : bool) (name : string)
    : M unit :=
  _ <- emit (UploadCall name) ;;
  if media_ok then
    (if create_ok then emit (UploadDone name) else emit (UploadError name))
  else raise.

(** The loop of [upload_extracted_files]: a regular file is uploaded
    unless [skip_pred] holds (see [file_step]). *)
Fixpoint upload_entries (a : archive) (l : list dir_entry) : M unit :=
  match l with
  | [] => ret tt
  | d :: l' =>
      _ <- (if d_isfile d && negb (skip_pred d)
            then upload_file_to_drive (a_media_ok a (d_name d))
                                      (a_create_ok a (d_name d)) (d_name d)
            else ret tt) ;;
      upload_entries a l'
  end.

(** [for file in os.listdir(extraction_dir): ...] *)
Definition upload_extracted_files (a : archive) : M unit :=
  match a_listing a with
  | None => raise
  | Some l => upload_entries a l
  end.

(** <<
    for zip_file in zip_files:
        ...
        if not os.path.exists(extraction_dir):
            os.makedirs(extraction_dir)
        idx_csv_path = process_zip_archive(zip_file, extraction_dir)
        if idx_csv_path:
            index_csv_list.append(idx_csv_path)
        upload_extracted_files(extraction_dir, drive_folder_id, drive_service)
    >> *)
Fixpoint process_archives (zs : list archive) (acc : list string)
    : M (list string) :=
  match zs with
  | [] => ret acc
  | a :: zs' =>
      if a_dir_ok a then
        let acc' := match a_index a with
                    | Some p => (acc ++ [p])%list
                    | None => acc
                    end in
        _ <- upload_extracted_files a ;;
        process_archives zs' acc'
      else raise
  end.

Definition process_all_zip_archives (zs : list archive) : M (list string) :=
  match zs with
  | [] => ret []
  | _ => process_archives zs []
  end.

(** [if __name__ == "__main__":] after the download.  [exit(1)] and an
    uncaught exception both end the process; [Crash] is the latter.
    [aggregate_index_csv] catches its errors; [cleanup_local_files] catches
    all but those of [os.listdir(CONSOLIDATED_DIR)]. *)
Definition main (env : run_env) : outcome * list ev :=
  match downloaded env with
  | [] => (Exit 1, [])
  | _ :: _ =>
      if drive_ok env then
        let '(r, tr) :=
          (idx <- process_all_zip_archives (zip_files env) ;;
           if consolidated_ok env then
             _ <- emit Aggregated ;;
             _ <- upload_file_to_drive (master_write_ok env)
                    (master_create_ok env) "photos_uploaded.csv" ;;
             (* the name stands for [f"photos_uploaded-{timestamp}.csv"] *)
             if cleanup_list_ok env then emit CleanedUp else raise
           else raise) [] in
        match r with
        | Some _ => (Finished, tr)
        | None => (Crash, tr)
        end
      else (Crash, [])
  end.

(** No unguarded statement of one archive raises. *)
Definition entry_ok (a : archive) (d : dir_entry) : bool :=
  negb (d_isfile d && negb (skip_pred d)) || a_media_ok a (d_name d).

Definition archive_ok (a : archive) : bool :=
  a_dir_ok a &&
  match a_listing a with
  | Some l => forallb (entry_ok a) l
  | None => false
  end.

End Main.

(* ================================================================= *)
(** ** [cleanup_directory] *)

Module Cleanup.
Import Py.

(** What [os.path.isfile], [os.path.islink] and [os.path.isdir] say of an
    entry ([isfile] follows links, so a link to a directory is a [KLink]
    and a regular file a [KFile]). *)
Inductive kind := KFile | KLink | KDir | KOther.

(** An entry of the directory and whether [os.unlink] (files and links) or
    [shutil.rmtree] (directories) succeeds on it. *)
Record centry := {
  c_name : string;
  c_kind : kind;
  c_delete_ok : bool }.

Inductive event :=
  | Preserved (name : string)
  | Deleted (name : string)
  | DeleteFailed (name : string).

(** [filename.startswith("log-") and filename.endswith(".log")] *)
Definition is_log (name : string) : bool :=
  is_prefix "log-" name && endswith name ".log".

(** One iteration of [for filename in os.listdir(directory):]: the entry
    if it is still there afterwards, and the log. *)
Definition cleanup_entry (e : centry) : list centry * list event :=
  if is_log (c_name e) then ([e], [Preserved (c_name e)])
  else
    match c_kind e with
    | KFile | KLink | KDir =>
        if c_delete_ok e then ([], [Deleted (c_name e)])
        else ([e], [DeleteFailed (c_name e)])
    | KOther => ([e], [])
    end.

(** [cleanup_directory(directory)]: [None] is a directory that does not
    exist ([os.path.exists] is false). *)
Definition cleanup_directory (d : option (list centry))
    : option (list centry) * list event :=
  match d with
  | None => (None, [])
  | Some l =>
      (Some (flat_map (fun e => fst (cleanup_entry e)) l),
       flat_map (fun e => snd (cleanup_entry e)) l)
  end.

End Cleanup.

(* ================================================================= *)
(** ** The extracted index file *)

Module IndexFile.
Import Zip.

(** The bytes [process_zip_archive] reads back from
    [os.path.join(extract_dir, index_csv_filename)]: [extractall] writes
    the entries in order, so the last entry of that name wins. *)
Definition index_bytes (es : list entry) (name : string) : list Z :=
  match find (fun e => String.eqb (e_name e) name) (rev es) with
  | Some e => e_bytes e
  | None => []
  end.

End IndexFile.

(* ================================================================= *)
(** ** Observations used in statements *)

Module Observe.

(** A decorated row whose key equals [k]. *)
Definition same (k : Aggregate.key) (p : Aggregate.key * Aggregate.row) : bool :=
  match Aggregate.key_compare (fst p) k with Eq => true | _ => false end.

(** The files handed to [upload_file_to_drive], in order. *)
Definition drive_calls (tr : list Main.ev) : list string :=
  flat_map (fun e => match e with Main.UploadCall n => [n] | _ => [] end) tr.

End Observe.

(* ================================================================= *)
(** ** Sample inputs *)

Module Fixtures.

Definition hdr0 := ["File name"; "Preferred"; "Last"; "IC ID Number"].

(** [os.rename] into an extraction directory without subdirectories: a
    target name holding a '/' names a file in a directory that does not
    exist, and the call raises [FileNotFoundError]. *)
Definition rename_flat (dir : list string) (src dst : string) : bool :=
  negb (existsb (fun c => Ascii.eqb c "/"%char) (list_ascii_of_string dst)).

(** An index exported in a single-byte encoding: the header is ASCII, the
    data row holds "Jos\xe9" (cp1252), which is not valid UTF-8. *)
Definition cp1252_index : list Z :=
  (Utf8.bytes_of_string "File name,Preferred,Last" ++ [13; 10] ++
   Utf8.bytes_of_string "a.jpg,Jos" ++ [233] ++
   Utf8.bytes_of_string ",Smith" ++ [13; 10])%list%Z.

(** An index-like table stored under a [.txt] name. *)
Definition index_txt : Zip.entry :=
  {| Zip.e_name := "index.txt";
     Zip.e_bytes := (Utf8.bytes_of_string "File name,Preferred,Last" ++ [10] ++
                     Utf8.bytes_of_string "a.jpg,Ann,Smith" ++ [10])%list%Z |}.

Definition agg_hdr := ["File name"; "Preferred"; "Last"].

(** An index whose last data row is too short for the sort key. *)
Definition short_row_index : Aggregate.idx_file :=
  {| Aggregate.if_path := "a/index.csv";
     Aggregate.if_rows := [agg_hdr; ["x.jpg"; "bob"; "Zed"];
                           ["y.jpg"; "Ann"; "adams"]; ["b.jpg"]];
     Aggregate.if_error := false |}.

(** Two well-formed indexes whose headers differ in column order. *)
Definition index_a : Aggregate.idx_file :=
  {| Aggregate.if_path := "a/index.csv";
     Aggregate.if_rows := [agg_hdr; ["x.jpg"; "Bob"; "Zed"];
                           ["y.jpg"; "Ann"; "Adams"]];
     Aggregate.if_error := false |}.

Definition index_b : Aggregate.idx_file :=
  {| Aggregate.if_path := "b/index.csv";
     Aggregate.if_rows := [["Last"; "Preferred"; "File name"];
                           ["Cole"; "Cy"; "z.jpg"]];
     Aggregate.if_error := false |}.

(** A server with two matching archives: the download of the first fails,
    the second is downloaded but cannot be deleted. *)
Definition sftp_two : Sftp.sftp_env :=
  {| Sftp.connect_ok := true;
     Sftp.listing := Some ["a.zip"; "b.zip"; "notes.txt"];
     Sftp.mask := fun f => Py.endswith f ".zip";
     Sftp.local_dir_ok := true;
     Sftp.get_ok := fun f => String.eqb f "b.zip";
     Sftp.remove_ok := fun _ => false |}.

Definition photo (n : string) : Upload.dir_entry :=
  {| Upload.d_name := n; Upload.d_isfile := true; Upload.d_bytes := [] |}.

(** Two downloaded archives; a photo of the first cannot be opened by
    [MediaFileUpload]. *)
Definition arch_bad : Main.archive :=
  {| Main.a_dir_ok := true;
     Main.a_listing := Some [photo "x.jpg"];
     Main.a_media_ok := fun _ => false;
     Main.a_create_ok := fun _ => true;
     Main.a_index := Some "a/index.csv" |}.

Definition arch_good : Main.archive :=
  {| Main.a_dir_ok := true;
     Main.a_listing := Some [photo "y.jpg"];
     Main.a_media_ok := fun _ => true;
     Main.a_create_ok := fun _ => true;
     Main.a_index := Some "b/index.csv" |}.

Definition run_bad_file : Main.run_env :=
  {| Main.downloaded := ["a.zip"; "b.zip"];
     Main.drive_ok := true;
     Main.zip_files := [arch_bad; arch_good];
     Main.consolidated_ok := true;
     Main.master_write_ok := true;
     Main.master_create_ok := true;
     Main.cleanup_list_ok := true |}.

(** One downloaded archive whose photo is uploaded; the master CSV cannot
    be opened for writing. *)
Definition run_no_master : Main.run_env :=
  {| Main.downloaded := ["b.zip"];
     Main.drive_ok := true;
     Main.zip_files := [arch_good];
     Main.consolidated_ok := true;
     Main.master_write_ok := false;
     Main.master_create_ok := true;
     Main.cleanup_list_ok := true |}.

(** The same archive; everything succeeds but the listing of
    [CONSOLIDATED_DIR] in the cleanup. *)
Definition run_cleanup_fails : Main.run_env :=
  {| Main.downloaded := ["b.zip"];
     Main.drive_ok := true;
     Main.zip_files := [arch_good];
     Main.consolidated_ok := true;
     Main.master_write_ok := true;
     Main.master_create_ok := true;
     Main.cleanup_list_ok := false |}.

(** [str.lower] on UTF-8 text whose characters are ASCII or in the
    Latin-1 Supplement: A-Z and the capitals U+00C0..U+00DE (but U+00D7)
    move 0x20 up; every other character is kept. *)
Fixpoint lower_latin1 (s : string) : string :=
  match s with
  | String c ((String d s'') as s') =>
      if (Nat.eqb (nat_of_ascii c) 195 && Nat.leb 128 (nat_of_ascii d) &&
          Nat.leb (nat_of_ascii d) 158 && negb (Nat.eqb (nat_of_ascii d) 151))%bool
      then String c (String (ascii_of_nat (nat_of_ascii d + 32)) (lower_latin1 s''))
      else String (Py.lower_char c) (lower_latin1 s')
  | String c EmptyString => String (Py.lower_char c) EmptyString
  | EmptyString => EmptyString
  end.

(** "JOS\u00c9" and "Jos\u00e9" (capital and small e with acute) in UTF-8. *)
Definition JOSE_upper : string :=
  String "J" (String "O" (String "S" (String "195"%char (String "137"%char EmptyString)))).
Definition Jose_mixed : string :=
  String "J" (String "o" (String "s" (String "195"%char (String "169"%char EmptyString)))).

End Fixtures.

(* ================================================================= *)
(** * Proofs *)

(** ** Facts on strings *)

Module StrFacts.
Import Py.

Lemma append_cancel_l (p a b : string) : p ++ a = p ++ b -> a = b.
Proof.
  induction p as [|c p IH]; simpl; [auto|].
  intros H; injection H; auto.
Qed.

Lemma uint_no_paren (d : Decimal.uint) (e e' : string) :
  forall d' : Decimal.uint,
  NilEmpty.string_of_uint d ++ String ")" e =
  NilEmpty.string_of_uint d' ++ String ")" e' ->
  d = d'.
Proof.
  induction d; intros d' H; destruct d'; simpl in H;
    try discriminate; try reflexivity;
    injection H; intros; f_equal; auto.
Qed.

Lemma str_nat_paren_inj (n m : nat) (e : string) :
  str_nat n ++ String ")" e = str_nat m ++ String ")" e -> n = m.
Proof.
  unfold str_nat. intros H.
  apply uint_no_paren in H. now apply Unsigned.to_uint_inj.
Qed.

Lemma append_assoc3 (a b c : string) : (a ++ b) ++ c = a ++ b ++ c.
Proof. induction a; simpl; congruence. Qed.

End StrFacts.

(** ** The collision loop *)

Module RenameFacts.
Import Py Rename StrFacts.

Lemma seq_name_inj (last first ic ext : string) (n m : nat) :
  seq_name last first ic ext n = seq_name last first ic ext m -> n = m.
Proof.
  unfold seq_name. intros H.
  repeat (apply append_cancel_l in H).
  eapply str_nat_paren_inj; exact H.
Qed.

Lemma mem_In (x : string) (l : list string) : mem x l = true <-> In x l.
Proof.
  unfold mem. rewrite existsb_exists. split.
  - intros [y [Hy E]]. apply String.eqb_eq in E. subst; auto.
  - intros H. exists x. split; auto. apply String.eqb_refl.
Qed.

Lemma mem_notIn (x : string) (l : list string) : mem x l = false <-> ~ In x l.
Proof.
  rewrite <- mem_In. destruct (mem x l); split; intros H; congruence.
Qed.

(** Once the loop is at candidate [mk k], it stops at the first free
    [mk j], [j >= k], provided one exists within the fuel. *)
Lemma resolve_from (dir : list string) (mk : nat -> string) :
  forall f k,
  (exists j, k <= j < k + f /\ ~ In (mk j) dir) ->
  exists j, resolve f dir mk (S k) (mk k) = (mk j, S j) /\ k <= j /\
    ~ In (mk j) dir /\ (forall i, k <= i < j -> In (mk i) dir).
Proof.
  induction f as [|f IH]; intros k Hex.
  - destruct Hex as [j [Hj _]]. lia.
  - simpl. destruct (mem (mk k) dir) eqn:M.
    + apply mem_In in M.
      destruct (IH (S k)) as [j [E [Hk [Hn Hall]]]].
      { destruct Hex as [j [Hj Hn]]. exists j.
        assert (j <> k) by (intros ->; contradiction). split; [lia|auto]. }
      exists j. split; [exact E|]. split; [lia|]. split; [exact Hn|].
      intros i Hi. destruct (Nat.eq_dec i k) as [->|]; auto. apply Hall; lia.
    + apply mem_notIn in M. exists k. repeat split; auto; lia.
Qed.

(** Among [len dir + 1] pairwise distinct candidates one is free. *)
Lemma free_candidate_exists (dir : list string) (mk : nat -> string) :
  (forall n m, mk n = mk m -> n = m) ->
  exists j, 1 <= j < 1 + S (List.length dir) /\ ~ In (mk j) dir.
Proof.
  intros Inj.
  destruct (existsb (fun j => negb (mem (mk j) dir)) (seq 1 (S (List.length dir))))
    eqn:Ex.
  - apply existsb_exists in Ex. destruct Ex as [j [Hj M]].
    apply in_seq in Hj. apply negb_true_iff, mem_notIn in M.
    exists j. split; [lia|auto].
  - exfalso.
    assert (Hnd : NoDup (map mk (seq 1 (S (List.length dir))))).
    { apply Finite.Injective_map_NoDup; [exact Inj | apply seq_NoDup]. }
    assert (Hinc : incl (map mk (seq 1 (S (List.length dir)))) dir).
    { intros x Hx. apply in_map_iff in Hx as [j [<- Hj]].
      apply mem_In. destruct (mem (mk j) dir) eqn:M; auto.
      rewrite <- not_true_iff_false in Ex. exfalso. apply Ex.
      apply existsb_exists. exists j. rewrite M. auto. }
    pose proof (NoDup_incl_length Hnd Hinc) as L.
    rewrite length_map, length_seq in L. lia.
Qed.

(** The loop of [rename_row] ends through its condition: the chosen name
    is free, and it is the base name when that is free, the least free
    bracketed name otherwise. *)
Lemma resolve_fuel_enough (dir : list string) (last first ic ext : string) :
  let base := base_name last first ic ext in
  let mk := seq_name last first ic ext in
  exists new k,
    resolve (S (S (List.length dir))) dir mk 1 base = (new, k) /\
    ~ In new dir /\
    ((~ In base dir /\ new = base /\ k = 1) \/
     (In base dir /\ exists n, 1 <= n /\ new = mk n /\ k = S n /\
        forall i, 1 <= i < n -> In (mk i) dir)).
Proof.
  intros base mk. simpl resolve.
  destruct (mem base dir) eqn:M.
  - apply mem_In in M.
    destruct (resolve_from dir mk (S (List.length dir)) 1
                (free_candidate_exists dir mk (seq_name_inj last first ic ext)))
      as [j [E [Hj [Hn Hall]]]].
    exists (mk j), (S j). split; [exact E|]. split; [exact Hn|].
    right. split; [exact M|]. exists j. repeat split; auto.
  - apply mem_notIn in M. exists base, 1. repeat split; auto.
Qed.

Lemma remove_name_NoDup (x : string) (dir : list string) :
  NoDup dir -> NoDup (remove_name x dir).
Proof. intros H. apply NoDup_filter, H. Qed.

Lemma remove_name_incl (x : string) (dir : list string) (y : string) :
  In y (remove_name x dir) -> In y dir.
Proof. unfold remove_name. rewrite filter_In. tauto. Qed.

Section Pass.
Context {rename_ok : list string -> string -> string -> bool}.

Lemma rename_row_NoDup (dir : list string) (hdr : list string) (r : Dict.row) :
  NoDup dir -> NoDup (fst (fst (rename_row rename_ok dir hdr r))).
Proof.
  intros Hnd. unfold rename_row.
  destruct (Dict.present (Dict.get hdr r "File name")) as [f|]; [|exact Hnd].
  destruct (Dict.present (Dict.get hdr r "Preferred")) as [first|];
    [|exact Hnd].
  destruct (Dict.present (Dict.get hdr r "Last")) as [last|]; [|exact Hnd].
  destruct (resolve_fuel_enough dir last first (ic_of hdr r) (snd (splitext f)))
    as [new [k [E [Hn _]]]].
  rewrite E. destruct (mem f dir); [|exact Hnd].
  destruct (rename_ok dir f new); [|exact Hnd].
  simpl. constructor.
  - intros Hin. apply Hn. eapply remove_name_incl; eauto.
  - apply remove_name_NoDup, Hnd.
Qed.

Lemma rename_rows_NoDup (rows : list (list string * Dict.row)) :
  forall dir, NoDup dir -> NoDup (fst (fst (rename_rows rename_ok dir rows))).
Proof.
  induction rows as [|[hdr r] rows IH]; intros dir Hnd; simpl; [exact Hnd|].
  pose proof (rename_row_NoDup dir hdr r Hnd) as H1.
  destruct (rename_row rename_ok dir hdr r) as [[dir1 ev1] raised].
  simpl in H1. destruct raised; [exact H1|].
  specialize (IH dir1 H1).
  destruct (rename_rows rename_ok dir1 rows) as [[dir2 ev2] r2]. exact IH.
Qed.

End Pass.

End RenameFacts.

(** ** Claims on the renaming pass *)

Module RenameClaims.
Import Py Rename StrFacts RenameFacts Fixtures.

(** Scenarios 1, 2 and 3 of the specification. *)
Example scenario1 :
  rename_rows rename_flat ["photo1.jpg"]
    (Dict.dict_rows [hdr0; ["photo1.jpg"; "Ann"; "Smith"; "12345"]])
  = (["Smith, Ann - 12345.jpg"],
     [Renamed "photo1.jpg" "Smith, Ann - 12345.jpg" 1], false).
Proof. vm_compute. reflexivity. Qed.

Example scenario2 :
  rename_rows rename_flat ["photo1.jpg"]
    (Dict.dict_rows [hdr0; ["photo1.jpg"; "Ann"; "Smith"; ""]])
  = (["Smith, Ann - not admitted yet.jpg"],
     [Renamed "photo1.jpg" "Smith, Ann - not admitted yet.jpg" 1], false).
Proof. vm_compute. reflexivity. Qed.

Example scenario3 :
  snd (fst (rename_rows rename_flat ["p1.jpg"; "p2.jpg"]
         (Dict.dict_rows [hdr0; ["p1.jpg"; "Ann"; "Smith"; "12345"];
                                ["p2.jpg"; "Ann"; "Smith"; "12345"]])))
  = [Renamed "p1.jpg" "Smith, Ann - 12345.jpg" 1;
     Renamed "p2.jpg" "Smith, Ann - 12345 (1).jpg" 2].
Proof. vm_compute. reflexivity. Qed.

(** An "IC ID Number" of "N/A" gives the target [Smith, Ann - N/A.jpg];
    [os.rename] raises, the loop ends there, and the second row's payload
    is not renamed either. *)
Example scenario_slash :
  rename_rows rename_flat ["a.jpg"; "b.jpg"]
    (Dict.dict_rows [hdr0; ["a.jpg"; "Ann"; "Smith"; "N/A"];
                           ["b.jpg"; "Bob"; "Jones"; "2"]])
  = (["a.jpg"; "b.jpg"], [RenameFailed "a.jpg" "Smith, Ann - N/A.jpg"], true).
Proof. vm_compute. reflexivity. Qed.

(** C1 (counterexample).  The extraction directory holds the payloads
    [a.jpg] and [b.jpg] of two rows for the same person, and a file that
    already carries the name [Smith, Ann - 1 (1).jpg].  The first row keeps
    the bare name, but the first subsequent collision receives the suffix
    [ (2)], not [ (1)]: the numbering is not determined by the position of
    the row in its group. *)
Lemma rename_numbering_counterexample :
  snd (fst (rename_rows rename_flat ["a.jpg"; "b.jpg"; "Smith, Ann - 1 (1).jpg"]
         (Dict.dict_rows [hdr0; ["a.jpg"; "Ann"; "Smith"; "1"];
                                ["b.jpg"; "Ann"; "Smith"; "1"]])))
  = [Renamed "a.jpg" "Smith, Ann - 1.jpg" 1;
     Renamed "b.jpg" "Smith, Ann - 1 (2).jpg" 3].
Proof. vm_compute. reflexivity. Qed.

(** C1 (amended).  Processing a row whose required fields are present and
    whose payload [f] is in the directory chooses a name [new] that is not
    in the directory at that moment: the bare base name if it is free,
    otherwise the base name with [ (n)] for the least [n >= 1] whose name is
    free.  When [os.rename(f, new)] succeeds, [f] is renamed to [new] and
    the pass continues from the updated directory; when it raises, the
    directory is unchanged and the exception ends the pass.  The names of
    the directory stay pairwise distinct through the whole pass. *)
Theorem rename_collision_policy
    (rename_ok : list string -> string -> string -> bool) (dir : list string)
    (rows : list (list string * Dict.row)) (hdr : list string) (r : Dict.row)
    (f first last : string)
    (Hnd : NoDup dir)
    (Hf : Dict.present (Dict.get hdr r "File name") = Some f)
    (Hp : Dict.present (Dict.get hdr r "Preferred") = Some first)
    (Hl : Dict.present (Dict.get hdr r "Last") = Some last)
    (Hin : In f dir) :
  let ic := ic_of hdr r in
  let ext := snd (splitext f) in
  let base := base_name last first ic ext in
  NoDup (fst (fst (rename_rows rename_ok dir ((hdr, r) :: rows)))) /\
  exists new k,
    ~ In new dir /\
    ((~ In base dir /\ new = base) \/
     (In base dir /\ exists n, 1 <= n /\ new = seq_name last first ic ext n /\
        forall i, 1 <= i < n -> In (seq_name last first ic ext i) dir)) /\
    rename_rows rename_ok dir ((hdr, r) :: rows) =
      if rename_ok dir f new then
        let '(dir2, ev2, raised) :=
          rename_rows rename_ok (new :: remove_name f dir) rows in
        (dir2, Renamed f new k :: ev2, raised)
      else (dir, [RenameFailed f new], true).
Proof.
  intros ic ext base. split; [apply rename_rows_NoDup, Hnd|].
  destruct (resolve_fuel_enough dir last first ic ext)
    as [new [k [E [Hn Hcase]]]].
  exists new, k. split; [exact Hn|]. split.
  - destruct Hcase as [[H1 [H2 _]] | [H1 [n [Hn1 [H2 [_ H3]]]]]].
    + left. auto.
    + right. split; [exact H1|]. exists n. auto.
  - simpl. unfold rename_row. rewrite Hf, Hp, Hl. fold ic ext.
    rewrite E. apply mem_In in Hin. rewrite Hin.
    destruct (rename_ok dir f new); [|reflexivity].
    destruct (rename_rows rename_ok (new :: remove_name f dir) rows)
      as [[dir2 ev2] raised].
    reflexivity.
Qed.

Lemma rename_collision_policy_witness :
  let dir := ["a.jpg"; "Smith, Ann - 1.jpg"] in
  let r := ["a.jpg"; "Ann"; "Smith"; "1"] in
  NoDup dir /\ In "a.jpg" dir /\
  (let ic := ic_of hdr0 r in
   let ext := snd (splitext "a.jpg") in
   let base := base_name "Smith" "Ann" ic ext in
   NoDup (fst (fst (rename_rows rename_flat dir ((hdr0, r) :: [])))) /\
   exists new k,
     ~ In new dir /\
     ((~ In base dir /\ new = base) \/
      (In base dir /\ exists n, 1 <= n /\ new = seq_name "Smith" "Ann" ic ext n /\
         forall i, 1 <= i < n -> In (seq_name "Smith" "Ann" ic ext i) dir)) /\
     rename_rows rename_flat dir ((hdr0, r) :: []) =
       if rename_flat dir "a.jpg" new then
         let '(dir2, ev2, raised) :=
           rename_rows rename_flat (new :: remove_name "a.jpg" dir) [] in
         (dir2, Renamed "a.jpg" new k :: ev2, raised)
       else (dir, [RenameFailed "a.jpg" new], true)).
Proof.
  intros dir r.
  assert (Hnd : NoDup dir).
  { constructor; [simpl; intros [H|H]; [discriminate|exact H]|].
    constructor; [simpl; auto|constructor]. }
  assert (Hin : In "a.jpg" dir) by (simpl; auto).
  split; [exact Hnd|]. split; [exact Hin|].
  exact (rename_collision_policy rename_flat dir [] hdr0 r "a.jpg" "Ann" "Smith"
           Hnd eq_refl eq_refl eq_refl Hin).
Defined.

(** C3.  For a row with file name [f], given name [first] and family name
    [last] present, the first name the renamer tries is
    [last ++ ", " ++ first ++ " - " ++ ident ++ ext], where [ext] is the
    extension of [f] and [ident] is the "IC ID Number" field, replaced by
    "not admitted yet" exactly when that field is missing or empty.  When
    that name is free, [os.rename] is called with it: the payload is
    renamed to it when the call succeeds; when it raises (a target with a
    '/', as for an "IC ID Number" of "N/A"), the directory is unchanged and
    the exception leaves the loop. *)
Theorem rename_base_target
    (rename_ok : list string -> string -> string -> bool)
    (dir hdr : list string) (r : Dict.row)
    (f first last : string)
    (Hf : Dict.present (Dict.get hdr r "File name") = Some f)
    (Hp : Dict.present (Dict.get hdr r "Preferred") = Some first)
    (Hl : Dict.present (Dict.get hdr r "Last") = Some last)
    (Hin : In f dir) :
  let ident := match Dict.get hdr r "IC ID Number" with
               | None => "not admitted yet"
               | Some v => if String.eqb v "" then "not admitted yet" else v
               end in
  let target := last ++ ", " ++ first ++ " - " ++ ident ++ snd (splitext f) in
  ~ In target dir ->
  rename_row rename_ok dir hdr r =
    if rename_ok dir f target
    then (target :: remove_name f dir, [Renamed f target 1], false)
    else (dir, [RenameFailed f target], true).
Proof.
  intros ident target Hfree.
  unfold rename_row. rewrite Hf, Hp, Hl.
  assert (Eic : ic_of hdr r = ident).
  { unfold ic_of, ident, Dict.present.
    destruct (Dict.get hdr r "IC ID Number") as [v|]; [|reflexivity].
    destruct (String.eqb v ""); reflexivity. }
  rewrite Eic. simpl resolve.
  assert (Eb : base_name last first ident (snd (splitext f)) = target)
    by reflexivity.
  rewrite Eb. apply mem_notIn in Hfree. rewrite Hfree.
  apply mem_In in Hin. rewrite Hin. reflexivity.
Qed.

Lemma rename_base_target_witness :
  rename_row rename_flat ["photo1.jpg"] hdr0 ["photo1.jpg"; "Ann"; "Smith"; ""] =
    (["Smith, Ann - not admitted yet.jpg"],
     [Renamed "photo1.jpg" "Smith, Ann - not admitted yet.jpg" 1], false).
Proof.
  apply (rename_base_target rename_flat ["photo1.jpg"] hdr0
           ["photo1.jpg"; "Ann"; "Smith"; ""] "photo1.jpg" "Ann" "Smith");
    try reflexivity.
  - simpl; auto.
  - simpl. intros [H|H]; [discriminate|exact H].
Defined.

End RenameClaims.

(** ** Locating the index *)

Module ZipFacts.
Import Py Zip.

Lemma qualifies_eq (e : entry) :
  qualifies e =
  endswith (lower (e_name e)) ".csv" &&
  match Utf8.decode_all (bin_readline (e_bytes e)) with
  | Some header_line => Utf8.contains Utf8.marker header_line
  | None => false
  end.
Proof. reflexivity. Qed.

Lemma locate_none (es : list entry) :
  fst (locate es) = None <-> forall e, In e es -> qualifies e = false.
Proof.
  induction es as [|e es IH]; simpl.
  - split; [intros _ e []|reflexivity].
  - assert (Tail : (forall e', In e' es -> qualifies e' = false) ->
                   qualifies e = false ->
                   forall e', e = e' \/ In e' es -> qualifies e' = false).
    { intros H Hq e' [<-|He']; auto. }
    destruct (endswith (lower (e_name e)) ".csv") eqn:Ec; simpl.
    + destruct (Utf8.decode_all (bin_readline (e_bytes e))) as [h|] eqn:Ed.
      * destruct (Utf8.contains Utf8.marker h) eqn:Em; simpl.
        -- split; [discriminate|]. intros H.
           specialize (H e (or_introl eq_refl)).
           rewrite qualifies_eq, Ec, Ed, Em in H. discriminate.
        -- rewrite IH. split.
           ++ intros H. apply Tail; auto. rewrite qualifies_eq, Ec, Ed. exact Em.
           ++ intros H e' He'. auto.
      * destruct (locate es) as [res ev] eqn:El. simpl. simpl in IH.
        rewrite IH. split.
        -- intros H. apply Tail; auto. rewrite qualifies_eq, Ec, Ed. reflexivity.
        -- intros H e' He'. auto.
    + rewrite IH. split.
      * intros H. apply Tail; auto. rewrite qualifies_eq, Ec. reflexivity.
      * intros H e' He'. auto.
Qed.

Lemma locate_some (es : list entry) (n : string) :
  fst (locate es) = Some n ->
  exists pre e suf, es = (pre ++ e :: suf)%list /\ qualifies e = true /\
    e_name e = n /\ forall e', In e' pre -> qualifies e' = false.
Proof.
  induction es as [|e es IH]; simpl; [discriminate|].
  assert (Step : fst (locate es) = Some n ->
            qualifies e = false ->
            exists pre e0 suf, (e :: es) = (pre ++ e0 :: suf)%list /\
              qualifies e0 = true /\ e_name e0 = n /\
              forall e', In e' pre -> qualifies e' = false).
  { intros H Hq. destruct (IH H) as [pre [e0 [suf [E [Q [N A]]]]]].
    exists (e :: pre), e0, suf. subst es. repeat split; auto.
    intros e' [<-|He']; auto. }
  destruct (endswith (lower (e_name e)) ".csv") eqn:Ec; simpl.
  - destruct (Utf8.decode_all (bin_readline (e_bytes e))) as [h|] eqn:Ed.
    + destruct (Utf8.contains Utf8.marker h) eqn:Em; simpl.
      * intros H. injection H as <-. exists [], e, es. repeat split; auto.
        -- rewrite qualifies_eq, Ec, Ed. exact Em.
        -- intros e' [].
      * intros H. apply Step; auto. rewrite qualifies_eq, Ec, Ed. exact Em.
    + destruct (locate es) as [res ev] eqn:El. simpl. intros H.
      apply Step; [exact H |].
      rewrite qualifies_eq, Ec, Ed. reflexivity.
  - intros H. apply Step; auto. rewrite qualifies_eq, Ec. reflexivity.
Qed.

Lemma extract_all_mono (es : list entry) :
  forall dir x, In x dir -> In x (extract_all dir es).
Proof.
  induction es as [|e es IH]; intros dir x Hx; simpl; auto.
  apply IH. destruct (mem (e_name e) dir); auto.
  apply in_or_app; auto.
Qed.

Lemma extract_all_all (es : list entry) :
  forall dir e, In e es -> In (e_name e) (extract_all dir es).
Proof.
  induction es as [|e0 es IH]; intros dir e He; simpl; [destruct He|].
  destruct He as [<-|He]; [|apply IH; exact He].
  apply extract_all_mono. destruct (mem (e_name e0) dir) eqn:M.
  - apply RenameFacts.mem_In, M.
  - apply in_or_app. right. left. reflexivity.
Qed.

End ZipFacts.

(** ** Claims on index location and the upload filter *)

Module ZipClaims.
Import Py Zip ZipFacts Fixtures.

(** C2 (counterexample).  An entry whose first line is the header
    "File name,Preferred,Last" but whose name ends in [.txt] does not
    qualify: [process_zip_archive] reports no index. *)
Lemma zip_index_by_extension_counterexample :
  (exists h, Utf8.decode_all (bin_readline (e_bytes index_txt)) = Some h /\
             Utf8.contains Utf8.marker h = true) /\
  forall rename_ok : list string -> string -> string -> bool,
    snd (fst (process_zip_archive (fun _ => ([], false)) rename_ok true
                [index_txt] [])) = None.
Proof.
  split.
  - eexists. split; vm_compute; reflexivity.
  - intros rename_ok. vm_compute. reflexivity.
Qed.

(** C2 (amended).  For an archive that can be opened, an entry qualifies
    as the index exactly when its name, lower-cased, ends in ".csv" and its
    first line (bytes up to the first newline) decodes as UTF-8 and contains
    "File name".  The first qualifying entry in the archive's order is
    returned; when no entry qualifies the result is [None], and every entry
    has been extracted into the directory. *)
Theorem zip_index_located (parse_csv : list Z -> list (list string) * bool)
    (rename_ok : list string -> string -> string -> bool)
    (es : list entry) (dir : list string) :
  let res := snd (fst (process_zip_archive parse_csv rename_ok true es dir)) in
  let dir' := fst (fst (process_zip_archive parse_csv rename_ok true es dir)) in
  (res = None <-> forall e, In e es -> qualifies e = false) /\
  (forall n, res = Some n ->
     exists pre e suf, es = (pre ++ e :: suf)%list /\ qualifies e = true /\
       e_name e = n /\ forall e', In e' pre -> qualifies e' = false) /\
  (res = None -> forall e, In e es -> In (e_name e) dir').
Proof.
  intros res dir'.
  assert (Hres : res = fst (locate es)).
  { unfold res, process_zip_archive. simpl negb. cbv iota.
    destruct (locate es) as [[n|] ev]; simpl; [|reflexivity].
    destruct (parse_csv _) as [rows err].
    destruct (Rename.rename_rows _ _ _) as [[dir2 ev2] raised]. reflexivity. }
  rewrite Hres. split; [apply locate_none|]. split; [apply locate_some|].
  intros Hn e He.
  unfold dir', process_zip_archive. simpl negb. cbv iota.
  destruct (locate es) as [found ev]. simpl in Hn. subst found.
  simpl. apply extract_all_all, He.
Qed.

End ZipClaims.

Module UploadClaims.
Import Py Upload Utf8 Fixtures.

(** C8 (counterexample).  A CSV whose first line is the index header, but
    whose data row holds a byte that is not valid UTF-8 within the first
    chunk read, is uploaded: [readline()] decodes the whole chunk, raises,
    and the [except] branch falls through to the upload. *)
Lemma upload_decode_error_counterexample :
  (exists h, decode_all (Zip.bin_readline cp1252_index) = Some h /\
             contains marker h = true) /\
  uploaded [{| d_name := "index.csv"; d_isfile := true;
               d_bytes := cp1252_index |}] = ["index.csv"].
Proof.
  split.
  - eexists. split; vm_compute; reflexivity.
  - vm_compute. reflexivity.
Qed.

(** C8 (what the code does).  [upload_extracted_files] uploads exactly the regular
    files for which [skip_pred] fails: a file is skipped when its name,
    lower-cased, ends in ".csv" and reading its first line in text mode
    (UTF-8, whole 8192-byte chunks decoded) succeeds and contains
    "File name"; when that read raises, the file is uploaded.  Of several
    qualifying CSVs of an archive only the first in archive order is
    returned as the index. *)
Theorem upload_skip_rule (listing : list dir_entry) (es : list Zip.entry) :
  uploaded listing =
    map d_name (filter (fun d => d_isfile d && negb (skip_pred d)) listing) /\
  match fst (Zip.locate es) with
  | None => forall e, In e es -> Zip.qualifies e = false
  | Some n => exists pre e suf, es = (pre ++ e :: suf)%list /\
      Zip.qualifies e = true /\ Zip.e_name e = n /\
      forall e', In e' pre -> Zip.qualifies e' = false
  end.
Proof.
  split.
  - unfold uploaded, upload_extracted_files.
    induction listing as [|d listing IH]; [reflexivity|].
    simpl flat_map at 2. rewrite flat_map_app, IH. simpl filter.
    unfold file_step, skip_pred.
    destruct (d_isfile d); simpl; [|reflexivity].
    destruct (endswith (lower (d_name d)) ".csv"); simpl; [|reflexivity].
    destruct (text_readline chunk_size (d_bytes d)) as [l|]; simpl;
      [|reflexivity].
    destruct (contains marker l); reflexivity.
  - destruct (fst (Zip.locate es)) as [n|] eqn:E.
    + apply ZipFacts.locate_some, E.
    + apply ZipFacts.locate_none, E.
Qed.

End UploadClaims.

(** ** The aggregation sort *)

Module AggregateFacts.
Import Py Aggregate.

Section Facts.
Context {str_lower : string -> string}.

Lemma key_compare_antisym (a b : key) :
  key_compare b a = CompOpp (key_compare a b).
Proof.
  destruct a as [[a1 a2] a3], b as [[b1 b2] b3]. simpl.
  rewrite (String.compare_antisym b1 a1).
  destruct (String.compare a1 b1); simpl; try reflexivity.
  rewrite (String.compare_antisym b2 a2).
  destruct (String.compare a2 b2); simpl; try reflexivity.
  apply String.compare_antisym.
Qed.

Lemma key_le_total (a b : key) : key_le a b = false -> key_le b a = true.
Proof.
  unfold key_le. rewrite (key_compare_antisym a b).
  destruct (key_compare a b); simpl; intros H; congruence.
Qed.

Lemma insert_perm (x : key * row) (l : list (key * row)) :
  Permutation (insert x l) (x :: l).
Proof.
  induction l as [|y l IH]; simpl; [auto|].
  destruct (key_le (fst x) (fst y)); [auto|].
  rewrite IH. apply perm_swap.
Qed.

Lemma isort_perm (l : list (key * row)) : Permutation (isort l) l.
Proof.
  induction l as [|x l IH]; simpl; [auto|].
  rewrite insert_perm. auto.
Qed.

Lemma insert_HdRel (a x : key * row) (l : list (key * row)) :
  HdRel R a l -> R a x -> HdRel R a (insert x l).
Proof.
  destruct l as [|y l]; simpl; intros H Hax; [auto|].
  destruct (key_le (fst x) (fst y)); constructor; auto.
  inversion H; auto.
Qed.

Lemma insert_Sorted (x : key * row) (l : list (key * row)) :
  Sorted R l -> Sorted R (insert x l).
Proof.
  induction l as [|y l IH]; simpl; intros H; [auto|].
  destruct (key_le (fst x) (fst y)) eqn:E.
  - constructor; auto.
  - inversion H as [|? ? Hl Hy]; subst. constructor; [auto|].
    apply insert_HdRel; auto. apply key_le_total, E.
Qed.

Lemma isort_Sorted (l : list (key * row)) : Sorted R (isort l).
Proof. induction l; simpl; auto using insert_Sorted. Qed.

Lemma isort_id (l : list (key * row)) : Sorted R l -> isort l = l.
Proof.
  induction l as [|x l IH]; simpl; intros H; [auto|].
  inversion H as [|? ? Hl Hx]; subst. rewrite IH by exact Hl.
  destruct l as [|y l]; simpl; [auto|].
  inversion Hx; subst. unfold R in *. rewrite H1. reflexivity.
Qed.

Lemma keys_sorted_Sorted (l : list (key * row)) :
  keys_sorted (map fst l) = true <-> Sorted R l.
Proof.
  induction l as [|x l IH]; simpl; [split; auto|].
  destruct l as [|y l]; simpl.
  - split; auto.
  - rewrite andb_true_iff. simpl in IH. rewrite IH. split.
    + intros [H1 H2]. constructor; auto.
    + intros H. inversion H; subst. inversion H3; subst. auto.
Qed.

Lemma decorate_spec (li pi fi : nat) (rows : list row) (d : list (key * row)) :
  decorate str_lower li pi fi rows = Some d ->
  map snd d = rows /\ forall p, In p d -> row_key str_lower li pi fi (snd p) = Some (fst p).
Proof.
  revert d. induction rows as [|r rows IH]; simpl; intros d H.
  - injection H as <-. split; [reflexivity|intros p []].
  - destruct (row_key str_lower li pi fi r) as [k|] eqn:Ek; [|discriminate].
    destruct (decorate str_lower li pi fi rows) as [d'|]; [|discriminate].
    injection H as <-. destruct (IH d' eq_refl) as [E A].
    split; [simpl; congruence|].
    intros p [<-|Hp]; auto.
Qed.

Lemma decorate_pairs (li pi fi : nat) (d : list (key * row)) :
  (forall p, In p d -> row_key str_lower li pi fi (snd p) = Some (fst p)) ->
  decorate str_lower li pi fi (map snd d) = Some d.
Proof.
  induction d as [|[k r] d IH]; simpl; intros H; [reflexivity|].
  pose proof (H (k, r) (or_introl eq_refl)) as Hk. simpl in Hk. rewrite Hk.
  rewrite IH by auto. reflexivity.
Qed.

Lemma decorate_none (li pi fi : nat) (rows : list row) :
  decorate str_lower li pi fi rows = None <->
  exists r, In r rows /\ row_key str_lower li pi fi r = None.
Proof.
  induction rows as [|r rows IH]; simpl.
  - split; [discriminate|intros [r [[] _]]].
  - destruct (row_key str_lower li pi fi r) as [k|] eqn:Ek.
    + destruct (decorate str_lower li pi fi rows) as [d|] eqn:Ed.
      * split; [discriminate|]. intros [r' [[<-|Hr'] Hk]]; [congruence|].
        exfalso. assert (Hn : Some d = None) by (apply IH; exists r'; auto).
        discriminate.
      * split; [|reflexivity]. intros _.
        destruct (proj1 IH eq_refl) as [r' [Hr' Hk]]. exists r'. auto.
    + split; [|reflexivity]. intros _. exists r. auto.
Qed.

Lemma row_key_some (li pi fi : nat) (r : row) :
  row_key str_lower li pi fi r <> None <->
  (li < List.length r /\ pi < List.length r /\ fi < List.length r)%nat.
Proof.
  unfold row_key.
  destruct (nth_error r li) eqn:E1;
  destruct (nth_error r pi) eqn:E2;
  destruct (nth_error r fi) eqn:E3;
  repeat match goal with
  | H : nth_error ?l ?n = Some _ |- _ =>
      assert ((n < List.length l)%nat) by (apply nth_error_Some; congruence);
      clear H
  | H : nth_error _ _ = None |- _ => apply nth_error_None in H
  end; split; intros; try congruence; lia.
Qed.

Lemma sort_rows_idem (header : row) (data s : list row) :
  sort_rows str_lower header data = Some s -> sort_rows str_lower header s = Some s.
Proof.
  unfold sort_rows.
  destruct (index_of "Last" header) as [li|]; [|discriminate].
  destruct (index_of "Preferred" header) as [pi|]; [|discriminate].
  destruct (index_of "File name" header) as [fi|]; [|discriminate].
  destruct (decorate str_lower li pi fi data) as [d|] eqn:Ed; [|discriminate].
  intros H. injection H as <-.
  destruct (decorate_spec li pi fi data d Ed) as [_ A].
  rewrite decorate_pairs.
  - rewrite isort_id by apply isort_Sorted. reflexivity.
  - intros p Hp. apply A. eapply Permutation_in; [apply isort_perm|exact Hp].
Qed.

Lemma sort_rows_sorted_id (header : row) (data : list row) :
  rows_sorted str_lower header data = true -> sort_rows str_lower header data = Some data.
Proof.
  unfold rows_sorted, sort_rows.
  destruct (index_of "Last" header) as [li|]; [|discriminate].
  destruct (index_of "Preferred" header) as [pi|]; [|discriminate].
  destruct (index_of "File name" header) as [fi|]; [|discriminate].
  destruct (decorate str_lower li pi fi data) as [d|] eqn:Ed; [|discriminate].
  intros H. apply keys_sorted_Sorted, isort_id in H. rewrite H.
  destruct (decorate_spec li pi fi data d Ed) as [E _]. rewrite E.
  reflexivity.
Qed.


Lemma row_eqb_eq (a b : row) : row_eqb a b = true <-> a = b.
Proof.
  revert b. induction a as [|x a IH]; intros [|y b]; simpl;
    try (split; congruence).
  rewrite andb_true_iff, String.eqb_eq, IH. split.
  - intros [-> ->]. reflexivity.
  - intros H. injection H. auto.
Qed.

(** Once the master header is set, every later file contributes all of its
    rows after its header, and a different header is logged. *)
Lemma collect_set (files : list idx_file) :
  forall m mr, (forall f, In f files -> if_rows f <> []) ->
  exists ev, collect files (Some m) mr =
             (Some m, (mr ++ List.concat (map data_of files))%list, ev) /\
    forall f, In f files -> header_of f <> m ->
      In (HeaderMismatch (if_path f)) ev.
Proof.
  induction files as [|fl fs IH]; intros m mr Hne; simpl.
  - exists []. rewrite app_nil_r. split; [reflexivity|intros f []].
  - unfold read_file.
    destruct (if_rows fl) as [|header rest] eqn:Er.
    { exfalso. apply (Hne fl); [left; reflexivity | exact Er]. }
    assert (Hne' : forall f, In f fs -> if_rows f <> [])
      by (intros f Hf; apply Hne; right; exact Hf).
    destruct (IH m (mr ++ rest)%list Hne') as [ev [E A]].
    rewrite E. eexists. split.
    + unfold data_of. rewrite Er. simpl. rewrite app_assoc. reflexivity.
    + intros f [<-|Hf] Hh.
      * unfold header_of in Hh. rewrite Er in Hh. simpl in Hh.
        destruct (row_eqb header m) eqn:Eq.
        -- apply row_eqb_eq in Eq. contradiction.
        -- simpl. left. reflexivity.
      * apply in_or_app. right. apply A; auto.
Qed.

Lemma collect_first (fl : idx_file) (fs : list idx_file) (h : row)
    (rest : list row) :
  if_rows fl = h :: rest -> (forall f, In f fs -> if_rows f <> []) ->
  exists ev, collect (fl :: fs) None [] =
             (Some h, h :: List.concat (map data_of (fl :: fs)), ev) /\
    forall f, In f fs -> header_of f <> h ->
      In (HeaderMismatch (if_path f)) ev.
Proof.
  intros Hfl Hne. simpl. unfold read_file. rewrite Hfl. simpl.
  destruct (collect_set fs h (h :: rest) Hne) as [ev [E A]].
  rewrite E. eexists. split.
  - unfold data_of. rewrite Hfl. reflexivity.
  - intros f Hf Hh. apply in_or_app. right. auto.
Qed.

(** The rows [aggregate_index_csv] writes, from the collected rows. *)
Lemma aggregate_eq (files : list idx_file) (w : bool) (h : row)
    (data : list row) (ev : list event) :
  collect files None [] = (Some h, h :: data, ev) ->
  aggregate_index_csv str_lower files w =
    let '(out, ev2) :=
      match data with
      | [] => (h :: data, [])
      | _ => match sort_rows str_lower h data with
             | Some sorted => (h :: sorted, [])
             | None => (h :: data, [SortError])
             end
      end in
    if w then (Some out, (ev ++ ev2 ++ [Written])%list)
    else (None, (ev ++ ev2 ++ [WriteError])%list).
Proof.
  intros E. unfold aggregate_index_csv. rewrite E.
  destruct data as [|r data]; reflexivity.
Qed.

Lemma sort_rows_perm (h : row) (data s : list row) :
  sort_rows str_lower h data = Some s -> Permutation s data.
Proof.
  unfold sort_rows.
  destruct (index_of "Last" h) as [li|]; [|discriminate].
  destruct (index_of "Preferred" h) as [pi|]; [|discriminate].
  destruct (index_of "File name" h) as [fi|]; [|discriminate].
  destruct (decorate str_lower li pi fi data) as [d|] eqn:Ed; [|discriminate].
  intros H. injection H as <-.
  destruct (decorate_spec li pi fi data d Ed) as [E _].
  rewrite <- E. apply Permutation_map, isort_perm.
Qed.

Lemma sort_rows_sorted (h : row) (data s : list row) :
  sort_rows str_lower h data = Some s -> rows_sorted str_lower h s = true.
Proof.
  unfold sort_rows, rows_sorted.
  destruct (index_of "Last" h) as [li|]; [|discriminate].
  destruct (index_of "Preferred" h) as [pi|]; [|discriminate].
  destruct (index_of "File name" h) as [fi|]; [|discriminate].
  destruct (decorate str_lower li pi fi data) as [d0|] eqn:Ed0; [|discriminate].
  intros H. injection H as <-.
  destruct (decorate_spec li pi fi data d0 Ed0) as [_ A].
  rewrite decorate_pairs.
  - apply keys_sorted_Sorted, isort_Sorted.
  - intros p Hp. apply A. eapply Permutation_in; [apply isort_perm|exact Hp].
Qed.

End Facts.

End AggregateFacts.

(* ------------------------------------------------------------------ *)

Module AggregateClaims.
Import Py Aggregate AggregateFacts Fixtures.

(** C4 (counterexample): a readable index whose header has "Last",
    "Preferred" and "File name" but whose last data row has a single field.
    Computing that row's key raises [IndexError], whatever the
    lower-casing, so the master CSV is written with the data rows in file
    order, although the keys of the first two rows, ("zed", "bob", "x.jpg")
    and ("adams", "ann", "y.jpg") (the fields are ASCII, on which [lower]
    is [str.lower]), are not ascending. *)
Lemma aggregate_short_row_counterexample :
  (forall str_lower : string -> string,
     aggregate_index_csv str_lower [short_row_index] true =
       (Some [agg_hdr; ["x.jpg"; "bob"; "Zed"]; ["y.jpg"; "Ann"; "adams"];
              ["b.jpg"]],
        [SortError; Written])) /\
  key_le (lower "Zed", lower "bob", lower "x.jpg")
         (lower "adams", lower "Ann", lower "y.jpg") = false.
Proof. split; [intros str_lower|]; vm_compute; reflexivity. Qed.

(** C4 (amended): when the first file's header has the three key columns
    and every data row is long enough for the three of them, the written
    master CSV is that header followed by a permutation of the
    concatenated data rows of all files whose keys (Last, Preferred,
    File name, each lower-cased by [str_lower], which stands for Python's
    [str.lower]) are in ascending order. *)
Theorem aggregate_sorted_output (str_lower : string -> string)
    (fl : idx_file) (fs : list idx_file)
    (h : row) (rest : list row) (li pi fi : nat)
    (Hfl : if_rows fl = h :: rest)
    (Hread : forall f, In f fs -> if_rows f <> [])
    (Hli : index_of "Last" h = Some li)
    (Hpi : index_of "Preferred" h = Some pi)
    (Hfi : index_of "File name" h = Some fi)
    (Hlong : forall r, In r (List.concat (map data_of (fl :: fs))) ->
       (li < List.length r /\ pi < List.length r /\ fi < List.length r)%nat) :
  exists out,
    fst (aggregate_index_csv str_lower (fl :: fs) true) = Some (h :: out) /\
    Permutation out (List.concat (map data_of (fl :: fs))) /\
    rows_sorted str_lower h out = true.
Proof.
  destruct (collect_first fl fs h rest Hfl Hread) as [ev [E _]].
  rewrite (aggregate_eq _ true _ _ _ E).
  set (data := List.concat (map data_of (fl :: fs))) in *.
  assert (Hs : exists s, sort_rows str_lower h data = Some s).
  { unfold sort_rows. rewrite Hli, Hpi, Hfi.
    destruct (decorate str_lower li pi fi data) as [d|] eqn:Ed.
    - eexists. reflexivity.
    - apply decorate_none in Ed. destruct Ed as [r [Hr Hk]].
      exfalso. apply (proj2 (row_key_some (str_lower := str_lower) li pi fi r) (Hlong r Hr)), Hk. }
  destruct Hs as [s Hs].
  destruct data as [|r0 data'] eqn:Ed.
  - exists []. split; [reflexivity|]. split; [constructor|].
    unfold rows_sorted. rewrite Hli, Hpi, Hfi. reflexivity.
  - rewrite Hs. exists s. split; [reflexivity|]. split.
    + apply sort_rows_perm with (1 := Hs).
    + apply sort_rows_sorted with (1 := Hs).
Qed.

Lemma aggregate_sorted_output_witness :
  exists out,
    fst (aggregate_index_csv lower [index_a] true) = Some (agg_hdr :: out) /\
    Permutation out (List.concat (map data_of [index_a])) /\
    rows_sorted lower agg_hdr out = true.
Proof.
  apply (aggregate_sorted_output lower index_a [] agg_hdr
           [["x.jpg"; "Bob"; "Zed"]; ["y.jpg"; "Ann"; "Adams"]] 2 1 0).
  - reflexivity.
  - intros f [].
  - reflexivity.
  - reflexivity.
  - reflexivity.
  - simpl. intros r [<-|[<-|[]]]; simpl; lia.
Defined.

(** C5: a later file whose header differs from the master header is logged
    as a mismatch, and the written rows are the master header followed by
    all data rows of all files, each file's rows taken as they are (no
    column remapping) and none dropped. *)
Theorem aggregate_header_mismatch_kept (str_lower : string -> string)
    (fl : idx_file) (fs : list idx_file)
    (h : row) (rest : list row)
    (Hfl : if_rows fl = h :: rest)
    (Hread : forall f, In f fs -> if_rows f <> []) :
  (forall f, In f fs -> header_of f <> h ->
     In (HeaderMismatch (if_path f)) (snd (aggregate_index_csv str_lower (fl :: fs) true))) /\
  exists out,
    fst (aggregate_index_csv str_lower (fl :: fs) true) = Some (h :: out) /\
    Permutation out (List.concat (map data_of (fl :: fs))).
Proof.
  destruct (collect_first fl fs h rest Hfl Hread) as [ev [E A]].
  rewrite (aggregate_eq _ true _ _ _ E).
  set (data := List.concat (map data_of (fl :: fs))) in *.
  assert (Hout : exists out ev2,
    (match data with
     | [] => (h :: data, [])
     | _ => match sort_rows str_lower h data with
            | Some sorted => (h :: sorted, [])
            | None => (h :: data, [SortError])
            end
     end) = (h :: out, ev2) /\ Permutation out data).
  { destruct data as [|r0 d'].
    - exists [], []. split; [reflexivity|constructor].
    - destruct (sort_rows str_lower h (r0 :: d')) as [s|] eqn:Es.
      + exists s, []. split; [reflexivity|]. apply sort_rows_perm with (1 := Es).
      + exists (r0 :: d'), [SortError]. split; reflexivity. }
  destruct Hout as [out [ev2 [Eo Hp]]]. rewrite Eo. simpl. split.
  - intros f Hf Hh. apply in_or_app. left. auto.
  - exists out. split; [reflexivity|exact Hp].
Qed.

Lemma aggregate_header_mismatch_kept_witness :
  ((forall f, In f [index_b] -> header_of f <> agg_hdr ->
     In (HeaderMismatch (if_path f))
        (snd (aggregate_index_csv lower (index_a :: [index_b]) true))) /\
   exists out,
     fst (aggregate_index_csv lower (index_a :: [index_b]) true) = Some (agg_hdr :: out) /\
     Permutation out (List.concat (map data_of (index_a :: [index_b])))).
Proof.
  apply (aggregate_header_mismatch_kept lower index_a [index_b] agg_hdr
           [["x.jpg"; "Bob"; "Zed"]; ["y.jpg"; "Ann"; "Adams"]]).
  - reflexivity.
  - intros f [<-|[]]. discriminate.
Defined.

(** C7: the sort is idempotent: sorting its own output again returns the
    same order, and a row list whose keys are already ascending is
    returned unchanged (the sort is stable).  Both hold for every
    lower-casing [str_lower] of the keys, Python's [str.lower] among them. *)
Theorem aggregate_sort_idempotent (str_lower : string -> string)
    (header : row) (data s : list row)
    (H : sort_rows str_lower header data = Some s) :
  sort_rows str_lower header s = Some s /\
  (forall d, rows_sorted str_lower header d = true -> sort_rows str_lower header d = Some d).
Proof.
  split.
  - apply sort_rows_idem with (1 := H).
  - intros d Hd. apply sort_rows_sorted_id, Hd.
Qed.

Lemma aggregate_sort_idempotent_witness :
  sort_rows Fixtures.lower_latin1 agg_hdr
    [["b.jpg"; Fixtures.JOSE_upper; "Smith"]; ["a.jpg"; Fixtures.Jose_mixed; "Smith"]] =
    Some [["a.jpg"; Fixtures.Jose_mixed; "Smith"]; ["b.jpg"; Fixtures.JOSE_upper; "Smith"]] /\
  sort_rows Fixtures.lower_latin1 agg_hdr
    [["a.jpg"; Fixtures.Jose_mixed; "Smith"]; ["b.jpg"; Fixtures.JOSE_upper; "Smith"]] =
    Some [["a.jpg"; Fixtures.Jose_mixed; "Smith"]; ["b.jpg"; Fixtures.JOSE_upper; "Smith"]] /\
  (forall d, rows_sorted Fixtures.lower_latin1 agg_hdr d = true ->
             sort_rows Fixtures.lower_latin1 agg_hdr d = Some d).
Proof.
  assert (H : sort_rows Fixtures.lower_latin1 agg_hdr
    [["b.jpg"; Fixtures.JOSE_upper; "Smith"]; ["a.jpg"; Fixtures.Jose_mixed; "Smith"]] =
    Some [["a.jpg"; Fixtures.Jose_mixed; "Smith"]; ["b.jpg"; Fixtures.JOSE_upper; "Smith"]])
    by (vm_compute; reflexivity).
  split; [exact H|].
  exact (aggregate_sort_idempotent Fixtures.lower_latin1 agg_hdr _ _ H).
Defined.

(** C9: when there are data rows and either the master header lacks one of
    "Last", "Preferred", "File name" or some data row is too short for one
    of their positions, the sort error is logged and the rows written are
    the master header followed by all data rows in concatenation order;
    writing is still attempted, and its failure is logged, not raised. *)
Theorem aggregate_unsorted_on_bad_row (str_lower : string -> string)
    (fl : idx_file) (fs : list idx_file)
    (h : row) (rest : list row) (w : bool)
    (Hfl : if_rows fl = h :: rest)
    (Hread : forall f, In f fs -> if_rows f <> [])
    (Hdata : List.concat (map data_of (fl :: fs)) <> [])
    (Hbad : index_of "Last" h = None \/ index_of "Preferred" h = None \/
            index_of "File name" h = None \/
            exists li pi fi r,
              index_of "Last" h = Some li /\ index_of "Preferred" h = Some pi /\
              index_of "File name" h = Some fi /\
              In r (List.concat (map data_of (fl :: fs))) /\
              (List.length r <= li \/ List.length r <= pi \/
               List.length r <= fi)%nat) :
  fst (aggregate_index_csv str_lower (fl :: fs) w) =
    (if w then Some (h :: List.concat (map data_of (fl :: fs))) else None) /\
  In SortError (snd (aggregate_index_csv str_lower (fl :: fs) w)).
Proof.
  destruct (collect_first fl fs h rest Hfl Hread) as [ev [E _]].
  rewrite (aggregate_eq _ w _ _ _ E).
  set (data := List.concat (map data_of (fl :: fs))) in *.
  assert (Hn : sort_rows str_lower h data = None).
  { unfold sort_rows.
    destruct Hbad as [B|[B|[B|[li [pi [fi [r [B1 [B2 [B3 [Hr Hl]]]]]]]]]]].
    - rewrite B. reflexivity.
    - rewrite B. destruct (index_of "Last" h); reflexivity.
    - rewrite B. destruct (index_of "Last" h), (index_of "Preferred" h);
        reflexivity.
    - rewrite B1, B2, B3.
      assert (Hk : row_key str_lower li pi fi r = None).
      { destruct (row_key str_lower li pi fi r) eqn:Ek; [|reflexivity].
        exfalso. assert (Hs : row_key str_lower li pi fi r <> None) by congruence.
        apply row_key_some in Hs. lia. }
      replace (decorate str_lower li pi fi data) with (@None (list (key * row)));
        [reflexivity|].
      symmetry. apply decorate_none. exists r. auto. }
  destruct data as [|r0 d'] eqn:Ed; [contradiction|].
  rewrite Hn. destruct w; simpl; split; try reflexivity;
    apply in_or_app; right; left; reflexivity.
Qed.

Lemma aggregate_unsorted_on_bad_row_witness :
  fst (aggregate_index_csv lower (short_row_index :: []) true) =
    Some (agg_hdr :: List.concat (map data_of (short_row_index :: []))) /\
  In SortError (snd (aggregate_index_csv lower (short_row_index :: []) true)).
Proof.
  apply (aggregate_unsorted_on_bad_row lower short_row_index [] agg_hdr
           [["x.jpg"; "bob"; "Zed"]; ["y.jpg"; "Ann"; "adams"]; ["b.jpg"]] true).
  - reflexivity.
  - intros f [].
  - discriminate.
  - right. right. right. exists 2, 1, 0, ["b.jpg"].
    split; [reflexivity|]. split; [reflexivity|]. split; [reflexivity|].
    split; [simpl; auto|]. simpl. lia.
Defined.

End AggregateClaims.

(* ------------------------------------------------------------------ *)
(** ** The download loop *)

Module SftpFacts.
Import Py StrFacts Sftp.

Lemma path_join_inj (d f g : string) :
  is_prefix "/" f = false -> is_prefix "/" g = false ->
  path_join d f = path_join d g -> f = g.
Proof.
  unfold path_join. intros Hf Hg. rewrite Hf, Hg.
  destruct (String.eqb d "" || endswith d "/").
  - apply append_cancel_l.
  - intros H. apply append_cancel_l in H. injection H. auto.
Qed.

Lemma download_loop_res (env : sftp_env) (d : string) (fs : list string) (x : string) :
  In x (fst (download_loop env d fs)) <->
  exists f, In f fs /\ get_ok env f = true /\ x = path_join d f.
Proof.
  induction fs as [|f fs IH]; simpl.
  - split; [intros []|intros [f [[] _]]].
  - destruct (get_ok env f) eqn:Eg;
    destruct (download_loop env d fs) as [rest ev'] eqn:El; simpl in *.
    + split.
      * intros [<-|Hx]; [exists f; auto|].
        destruct (proj1 IH Hx) as [g [Hg [Hok ->]]]. exists g. auto.
      * intros [g [[<-|Hg] [Hok ->]]]; [left; reflexivity|].
        right. apply IH. exists g. auto.
    + rewrite IH. split.
      * intros [g [Hg [Hok ->]]]. exists g. auto.
      * intros [g [[<-|Hg] [Hok ->]]]; [congruence|]. exists g. auto.
Qed.

Lemma download_loop_remove (env : sftp_env) (d : string) (fs : list string)
    (f : string) (ok : bool) :
  In (Remove f ok) (snd (download_loop env d fs)) ->
  In f fs /\ get_ok env f = true /\ ok = remove_ok env f.
Proof.
  induction fs as [|g fs IH]; simpl; [intros []|].
  destruct (get_ok env g) eqn:Eg;
  destruct (download_loop env d fs) as [rest ev'] eqn:El; simpl in *.
  - intros [H|[H|H]]; try discriminate.
    + injection H as <- <-. auto.
    + destruct (IH H) as [A B]. auto.
  - intros [H|H]; [discriminate|]. destruct (IH H) as [A B]. auto.
Qed.

Lemma download_loop_get (env : sftp_env) (d : string) (fs : list string)
    (f : string) :
  In f fs -> In (Get f (get_ok env f)) (snd (download_loop env d fs)).
Proof.
  induction fs as [|g fs IH]; simpl; [intros []|].
  intros Hf.
  destruct (get_ok env g) eqn:Eg;
  destruct (download_loop env d fs) as [rest ev'] eqn:El; simpl in *;
  (destruct Hf as [<-|Hf]; [left; congruence|]);
  right; [right|]; apply IH, Hf.
Qed.

(** The trace is a sequence of blocks [Get f true; Remove f _] and
    [Get f false]. *)
Lemma download_loop_order (env : sftp_env) (d : string) (fs : list string) :
  (forall i f ok, nth_error (snd (download_loop env d fs)) (S i) = Some (Remove f ok) ->
                  nth_error (snd (download_loop env d fs)) i = Some (Get f true)) /\
  (forall f ok, nth_error (snd (download_loop env d fs)) 0 <> Some (Remove f ok)).
Proof.
  induction fs as [|g fs [IH1 IH2]]; simpl.
  - split; [intros [|i] f ok H|intros f ok H]; discriminate.
  - destruct (get_ok env g) eqn:Eg;
    destruct (download_loop env d fs) as [rest ev'] eqn:El; simpl in *.
    + split; [|discriminate].
      intros [|[|j]] f ok; simpl.
      * intros H. injection H as <- _. reflexivity.
      * intros H. exfalso. exact (IH2 f ok H).
      * apply IH1.
    + split; [|discriminate].
      intros [|j] f ok; simpl.
      * intros H. exfalso. exact (IH2 f ok H).
      * apply IH1.
Qed.

End SftpFacts.

Module SftpClaims.
Import Py Sftp SftpFacts Fixtures.

(** C10: for a connection that lists [files] (distinct names without a
    leading "/"), with local directory available: every matching file is
    fetched in turn, also after a failed fetch; a file is deleted on the
    server only right after its fetch succeeded, and then its local path
    is in the returned list; a file whose fetch raised is neither in the
    returned list nor deleted; a fetched file stays in the returned list
    whether or not its deletion succeeded. *)
Theorem sftp_delete_after_download (env : sftp_env) (local_dir : string)
    (files : list string)
    (Hc : connect_ok env = true) (Hl : listing env = Some files)
    (Hd : local_dir_ok env = true) (Hnd : NoDup files)
    (Hs : forall f, In f files -> is_prefix "/" f = false) :
  let '(res, tr) := download_files_from_sftp env local_dir in
  (forall f, In f (filter (mask env) files) -> In (Get f (get_ok env f)) tr) /\
  (forall i f ok, nth_error tr (S i) = Some (Remove f ok) ->
                  nth_error tr i = Some (Get f true)) /\
  (forall f ok, In (Remove f ok) tr ->
                get_ok env f = true /\ In (path_join local_dir f) res) /\
  (forall f, In f files -> get_ok env f = false ->
             ~ In (path_join local_dir f) res /\ forall ok, ~ In (Remove f ok) tr) /\
  (forall f, In f (filter (mask env) files) -> get_ok env f = true ->
             In (path_join local_dir f) res).
Proof.
  unfold download_files_from_sftp. rewrite Hc, Hl.
  set (m := filter (mask env) files).
  assert (Hm : forall f, In f m -> In f files)
    by (intros f Hf; apply filter_In in Hf; tauto).
  assert (Hloop :
    let '(res, tr) := download_loop env local_dir m in
    (forall f, In f m -> In (Get f (get_ok env f)) tr) /\
    (forall i f ok, nth_error tr (S i) = Some (Remove f ok) ->
                    nth_error tr i = Some (Get f true)) /\
    (forall f ok, In (Remove f ok) tr ->
                  get_ok env f = true /\ In (path_join local_dir f) res) /\
    (forall f, In f files -> get_ok env f = false ->
               ~ In (path_join local_dir f) res /\ forall ok, ~ In (Remove f ok) tr) /\
    (forall f, In f m -> get_ok env f = true -> In (path_join local_dir f) res)).
  { pose proof (download_loop_res env local_dir m) as Res.
    pose proof (download_loop_remove env local_dir m) as Rem.
    pose proof (download_loop_get env local_dir m) as Get'.
    pose proof (proj1 (download_loop_order env local_dir m)) as Ord.
    destruct (download_loop env local_dir m) as [res tr]; simpl in *.
    split; [exact Get'|]. split; [exact Ord|]. split; [|split].
    - intros f ok H. destruct (Rem f ok H) as [Hf [Hok _]].
      split; [exact Hok|]. apply Res. exists f. auto.
    - intros f Hf Hok. split.
      + intros H. apply Res in H. destruct H as [g [Hg [Hgok Heq]]].
        apply path_join_inj in Heq; [|apply Hs; exact Hf|apply Hs, Hm, Hg].
        subst g. congruence.
      + intros ok H. destruct (Rem f ok H) as [_ [Hok' _]]. congruence.
    - intros f Hf Hok. apply Res. exists f. auto. }
  destruct m as [|f0 m'] eqn:Em.
  - simpl. split; [intros f []|]. split; [intros [|i]; discriminate|].
    split; [intros f ok []|]. split; [|intros f []].
    intros f _ _. split; [intros []|intros ok []].
  - rewrite Hd. exact Hloop.
Qed.

Lemma sftp_delete_after_download_witness :
  let '(res, tr) := download_files_from_sftp sftp_two "dl" in
  (forall f, In f (filter (mask sftp_two) ["a.zip"; "b.zip"; "notes.txt"]) ->
     In (Get f (get_ok sftp_two f)) tr) /\
  (forall i f ok, nth_error tr (S i) = Some (Remove f ok) ->
                  nth_error tr i = Some (Get f true)) /\
  (forall f ok, In (Remove f ok) tr ->
                get_ok sftp_two f = true /\ In (path_join "dl" f) res) /\
  (forall f, In f ["a.zip"; "b.zip"; "notes.txt"] -> get_ok sftp_two f = false ->
             ~ In (path_join "dl" f) res /\ forall ok, ~ In (Remove f ok) tr) /\
  (forall f, In f (filter (mask sftp_two) ["a.zip"; "b.zip"; "notes.txt"]) ->
     get_ok sftp_two f = true -> In (path_join "dl" f) res).
Proof.
  apply (sftp_delete_after_download sftp_two "dl" ["a.zip"; "b.zip"; "notes.txt"]).
  - reflexivity.
  - reflexivity.
  - reflexivity.
  - repeat constructor; simpl; intuition discriminate.
  - intros f [<-|[<-|[<-|[]]]]; reflexivity.
Defined.

End SftpClaims.

(* ------------------------------------------------------------------ *)
(** ** The top level *)

Module MainFacts.
Import Py Upload Main.

Lemma upload_entries_fst (a : archive) (l : list dir_entry) :
  forall tr, fst (upload_entries a l tr) =
             if forallb (entry_ok a) l then Some tt else None.
Proof.
  induction l as [|d l IH]; intros tr; [reflexivity|].
  simpl. unfold entry_ok at 1, bind.
  destruct (d_isfile d && negb (skip_pred d)) eqn:E; simpl.
  - unfold upload_file_to_drive, bind, emit.
    destruct (a_media_ok a (d_name d)); simpl; [|reflexivity].
    destruct (a_create_ok a (d_name d)); apply IH.
  - apply IH.
Qed.

Lemma process_archives_fst (zs : list archive) :
  forall acc tr, fst (process_archives zs acc tr) = None <->
                 forallb archive_ok zs = false.
Proof.
  induction zs as [|a zs IH]; intros acc tr; simpl.
  - split; discriminate.
  - unfold archive_ok at 1.
    destruct (a_dir_ok a); simpl; [|split; reflexivity].
    unfold bind, upload_extracted_files.
    destruct (a_listing a) as [l|]; [|simpl; split; reflexivity].
    pose proof (upload_entries_fst a l tr) as U.
    destruct (upload_entries a l tr) as [[u|] tr'] eqn:Eu; simpl in U.
    + destruct (forallb (entry_ok a) l); [|discriminate]. simpl. apply IH.
    + destruct (forallb (entry_ok a) l); [discriminate|]. simpl.
      split; reflexivity.
Qed.

Lemma process_all_fst (zs : list archive) (tr : list ev) :
  fst (process_all_zip_archives zs tr) = None <-> forallb archive_ok zs = false.
Proof.
  destruct zs as [|a zs']; [simpl; split; discriminate|].
  apply process_archives_fst.
Qed.

End MainFacts.

Module MainClaims.
Import Py Upload Main MainFacts Fixtures.

(** C6 (counterexample).  Three runs past the checkpoint end with an
    uncaught exception.  In the first, two archives were downloaded and a
    photo of the first cannot be opened by [MediaFileUpload], which
    [upload_file_to_drive] calls outside its [try]: the second archive's
    photo is never uploaded, the master CSV is neither written nor
    uploaded, and the cleanup does not run.  In the second, the master CSV
    cannot be opened for writing: [aggregate_index_csv] catches that, and
    [MediaFileUpload] then fails on the missing file.  In the third,
    [os.listdir(CONSOLIDATED_DIR)] raises in the cleanup. *)
Lemma main_unguarded_crash_counterexample :
  main run_bad_file = (Crash, [UploadCall "x.jpg"]) /\
  main run_no_master =
    (Crash, [UploadCall "y.jpg"; UploadDone "y.jpg"; Aggregated;
             UploadCall "photos_uploaded.csv"]) /\
  main run_cleanup_fails =
    (Crash, [UploadCall "y.jpg"; UploadDone "y.jpg"; Aggregated;
             UploadCall "photos_uploaded.csv"; UploadDone "photos_uploaded.csv"]).
Proof. split; [|split]; vm_compute; reflexivity. Qed.

(** C6: with no downloaded file the run exits with code 1 before any call
    to Drive.  Otherwise it runs to its end exactly when
    [init_drive_service] returns, every archive's extraction directory is
    available and listable and every file to upload can be opened by
    [MediaFileUpload], [CONSOLIDATED_DIR] is available, the master CSV
    could be written, and the cleanup can list [CONSOLIDATED_DIR]; any
    other failure of these ends the run with an uncaught exception. *)
Theorem main_exit_points (env : run_env) :
  (downloaded env = [] -> main env = (Exit 1, [])) /\
  (downloaded env <> [] ->
     fst (main env) =
       if drive_ok env && forallb archive_ok (zip_files env) &&
          consolidated_ok env && master_write_ok env && cleanup_list_ok env
       then Finished else Crash).
Proof.
  unfold main. split; [intros ->; reflexivity|].
  intros Hne. destruct (downloaded env) as [|x xs]; [contradiction|].
  destruct (drive_ok env); simpl; [|reflexivity].
  unfold bind at 1.
  pose proof (process_all_fst (zip_files env) []) as P.
  destruct (process_all_zip_archives (zip_files env) []) as [[idx|] tr] eqn:Ep;
    simpl in P.
  - assert (Hok : forallb archive_ok (zip_files env) = true).
    { destruct (forallb archive_ok (zip_files env)); [reflexivity|].
      assert (Hn : Some idx = None) by (apply P; reflexivity).
      discriminate. }
    rewrite Hok. simpl.
    destruct (consolidated_ok env); simpl; [|reflexivity].
    unfold bind, emit, raise, upload_file_to_drive.
    destruct (master_write_ok env); simpl; [|reflexivity].
    destruct (master_create_ok env), (cleanup_list_ok env); reflexivity.
  - assert (Hok : forallb archive_ok (zip_files env) = false) by (apply P; reflexivity).
    rewrite Hok. reflexivity.
Qed.

End MainClaims.

(* ================================================================= *)
(** * Further properties of the code *)

(** ** The renaming pass *)

Module RenameExtra.
Import Py Rename RenameFacts.

Lemma remove_name_length (x : string) (dir : list string) :
  NoDup dir -> In x dir -> S (List.length (remove_name x dir)) = List.length dir.
Proof.
  unfold remove_name. induction dir as [|y dir IH]; intros Hnd Hin; [destruct Hin|].
  inversion Hnd as [|? ? Hy Hnd']; subst. simpl.
  destruct (String.eqb y x) eqn:E; simpl.
  - apply String.eqb_eq in E. subst y.
    assert (Hall : filter (fun y => negb (String.eqb y x)) dir = dir).
    { clear IH Hin Hnd Hnd'. induction dir as [|z dir IHd]; [reflexivity|]. simpl.
      destruct (String.eqb z x) eqn:Ez.
      - apply String.eqb_eq in Ez. subst z. exfalso. apply Hy. left. reflexivity.
      - simpl. f_equal. apply IHd. intros H. apply Hy. right. exact H. }
    rewrite Hall. reflexivity.
  - destruct Hin as [->|Hin]; [rewrite String.eqb_refl in E; discriminate|].
    rewrite IH; auto.
Qed.

Section Pass.
Context {rename_ok : list string -> string -> string -> bool}.

Lemma rename_row_length (dir hdr : list string) (r : Dict.row) :
  NoDup dir ->
  List.length (fst (fst (rename_row rename_ok dir hdr r))) = List.length dir.
Proof.
  intros Hnd. unfold rename_row.
  destruct (Dict.present (Dict.get hdr r "File name")) as [f|]; [|reflexivity].
  destruct (Dict.present (Dict.get hdr r "Preferred")) as [first|]; [|reflexivity].
  destruct (Dict.present (Dict.get hdr r "Last")) as [last|]; [|reflexivity].
  destruct (resolve (S (S (List.length dir))) dir _ 1 _) as [new k].
  destruct (mem f dir) eqn:M; [|reflexivity].
  destruct (rename_ok dir f new); [|reflexivity].
  apply mem_In in M. simpl. apply remove_name_length; assumption.
Qed.

Lemma rename_row_keeps (dir hdr : list string) (r : Dict.row) (x : string) :
  In x dir -> Dict.present (Dict.get hdr r "File name") <> Some x ->
  In x (fst (fst (rename_row rename_ok dir hdr r))).
Proof.
  intros Hx Hf. unfold rename_row.
  destruct (Dict.present (Dict.get hdr r "File name")) as [f|]; [|exact Hx].
  destruct (Dict.present (Dict.get hdr r "Preferred")) as [first|]; [|exact Hx].
  destruct (Dict.present (Dict.get hdr r "Last")) as [last|]; [|exact Hx].
  destruct (resolve (S (S (List.length dir))) dir _ 1 _) as [new k].
  destruct (mem f dir); [|exact Hx].
  destruct (rename_ok dir f new); [|exact Hx].
  simpl. right. unfold remove_name. apply filter_In. split; [exact Hx|].
  destruct (String.eqb x f) eqn:E; [|reflexivity].
  apply String.eqb_eq in E. subst. contradiction.
Qed.

Lemma rename_rows_keeps_gen (rows : list (list string * Dict.row)) (x : string) :
  forall dir, In x dir ->
  (forall hdr r, In (hdr, r) rows ->
     Dict.present (Dict.get hdr r "File name") <> Some x) ->
  In x (fst (fst (rename_rows rename_ok dir rows))).
Proof.
  induction rows as [|[hdr r] rows IH]; intros dir Hx Hr; simpl; [exact Hx|].
  pose proof (rename_row_keeps dir hdr r x Hx (Hr hdr r (or_introl eq_refl))) as H1.
  destruct (rename_row rename_ok dir hdr r) as [[dir1 ev1] raised].
  simpl in H1. destruct raised; [exact H1|].
  assert (H2 : In x (fst (fst (rename_rows rename_ok dir1 rows)))).
  { apply IH; [exact H1|]. intros h' r' H. apply Hr. right. exact H. }
  destruct (rename_rows rename_ok dir1 rows) as [[dir2 ev2] r2]. exact H2.
Qed.

End Pass.

(** X1: renaming keeps the number of files in the extraction directory:
    each rename moves one existing file to a name that was free, so no file
    is lost or overwritten, also when an [os.rename] that raises ends the
    pass. *)
Theorem rename_rows_length
    (rename_ok : list string -> string -> string -> bool)
    (rows : list (list string * Dict.row)) :
  forall dir, NoDup dir ->
    List.length (fst (fst (rename_rows rename_ok dir rows))) = List.length dir.
Proof.
  induction rows as [|[hdr r] rows IH]; intros dir Hnd; simpl; [reflexivity|].
  pose proof (rename_row_length (rename_ok := rename_ok) dir hdr r Hnd) as L1.
  pose proof (rename_row_NoDup (rename_ok := rename_ok) dir hdr r Hnd) as N1.
  destruct (rename_row rename_ok dir hdr r) as [[dir1 ev1] raised].
  simpl in L1, N1. destruct raised; [exact L1|].
  specialize (IH dir1 N1).
  destruct (rename_rows rename_ok dir1 rows) as [[dir2 ev2] r2].
  simpl in IH |- *. rewrite IH. exact L1.
Qed.

Lemma rename_rows_length_witness :
  NoDup ["a.jpg"; "b.jpg"] /\
  List.length (fst (fst (rename_rows Fixtures.rename_flat ["a.jpg"; "b.jpg"]
     [(["File name"; "Preferred"; "Last"], ["a.jpg"; "Ann"; "Smith"]);
      (["File name"; "Preferred"; "Last"], ["b.jpg"; "Ann"; "Smith"])]))) =
  List.length ["a.jpg"; "b.jpg"].
Proof.
  assert (H : NoDup ["a.jpg"; "b.jpg"])
    by (repeat constructor; simpl; intuition discriminate).
  split; [exact H|].
  apply (rename_rows_length Fixtures.rename_flat _ ["a.jpg"; "b.jpg"] H).
Defined.

(** X2: a file of the extraction directory that no row of the index names
    in its "File name" column keeps its name through the renaming pass. *)
Theorem rename_rows_keeps
    (rename_ok : list string -> string -> string -> bool)
    (rows : list (list string * Dict.row)) (x : string)
    (dir : list string) (Hx : In x dir)
    (Hr : forall hdr r, In (hdr, r) rows ->
       Dict.present (Dict.get hdr r "File name") <> Some x) :
  In x (fst (fst (rename_rows rename_ok dir rows))).
Proof. apply rename_rows_keeps_gen; assumption. Qed.

Lemma rename_rows_keeps_witness :
  let rows := [(["File name"; "Preferred"; "Last"], ["a.jpg"; "Ann"; "Smith"])] in
  In "notes.txt" ["a.jpg"; "notes.txt"] /\
  (forall hdr r, In (hdr, r) rows ->
     Dict.present (Dict.get hdr r "File name") <> Some "notes.txt") /\
  In "notes.txt" (fst (fst (rename_rows Fixtures.rename_flat ["a.jpg"; "notes.txt"] rows))).
Proof.
  intros rows.
  assert (H1 : In "notes.txt" ["a.jpg"; "notes.txt"]) by (right; left; reflexivity).
  assert (H2 : forall hdr r, In (hdr, r) rows ->
     Dict.present (Dict.get hdr r "File name") <> Some "notes.txt").
  { intros hdr r [E|[]]. injection E as <- <-. vm_compute. discriminate. }
  split; [exact H1|]. split; [exact H2|].
  apply (rename_rows_keeps Fixtures.rename_flat rows "notes.txt" ["a.jpg"; "notes.txt"] H1 H2).
Defined.

End RenameExtra.

(** ** [DictReader] lookups *)

Module DictExtra.
Import Dict.

Lemma last_index_go_absent (k : string) (h : list string) :
  ~ In k h -> forall i acc, last_index_go k h i acc = acc.
Proof.
  induction h as [|y h IH]; intros Hk i acc; simpl; [reflexivity|].
  destruct (String.eqb y k) eqn:E.
  - apply String.eqb_eq in E. subst. exfalso. apply Hk. left. reflexivity.
  - apply IH. intros H. apply Hk. right. exact H.
Qed.

Lemma last_index_go_last (k : string) (h1 h2 : list string) :
  ~ In k h2 -> forall i acc,
  last_index_go k (h1 ++ k :: h2) i acc = Some (i + List.length h1)%nat.
Proof.
  intros Hk. induction h1 as [|y h1 IH]; intros i acc; simpl.
  - rewrite String.eqb_refl, last_index_go_absent by exact Hk.
    f_equal. lia.
  - rewrite IH. f_equal. lia.
Qed.

(** X3: for a header in which the column [k] occurs last at position
    [length h1], [row.get(k)] of a [DictReader] row is the row's field at
    that position, and [None] when the row is shorter; earlier columns of
    the same name are ignored. *)
Theorem dict_get_last (h1 h2 : list string) (k : string) (r : row)
    (Hk : ~ In k h2) :
  get (h1 ++ k :: h2) r k =
    if (List.length h1 <? List.length r)%nat then nth_error r (List.length h1)
    else None.
Proof. unfold get. rewrite last_index_go_last by exact Hk. reflexivity. Qed.

Lemma dict_get_last_witness :
  ~ In "Last" ["Preferred"] /\
  get (["Last"; "File name"] ++ "Last" :: ["Preferred"])
      ["Smith"; "a.jpg"; "Jones"; "Ann"] "Last" = Some "Jones".
Proof.
  assert (H : ~ In "Last" ["Preferred"]) by (simpl; intuition discriminate).
  split; [exact H|].
  rewrite (dict_get_last ["Last"; "File name"] ["Preferred"] "Last"
             ["Smith"; "a.jpg"; "Jones"; "Ann"] H).
  reflexivity.
Defined.

End DictExtra.

(** ** Locating and reading the index *)

Module ZipExtra.
Import Py Zip ZipFacts RenameExtra.

(** X4: the index [process_zip_archive] returns is still in the extraction
    directory after the renaming pass, unless a row of the index itself
    names it in its "File name" column (then it was renamed away and the
    returned path no longer exists). *)
Theorem index_survives_renaming
    (parse_csv : list Z -> list (list string) * bool)
    (rename_ok : list string -> string -> string -> bool)
    (es : list entry) (dir : list string) (n : string)
    (Hn : snd (fst (process_zip_archive parse_csv rename_ok true es dir)) = Some n) :
  In n (fst (fst (process_zip_archive parse_csv rename_ok true es dir))) \/
  exists hdr r,
    In (hdr, r) (Dict.dict_rows (fst (parse_csv (IndexFile.index_bytes es n)))) /\
    Dict.present (Dict.get hdr r "File name") = Some n.
Proof.
  revert Hn. unfold process_zip_archive. simpl negb. cbv iota.
  destruct (locate es) as [[m|] ev] eqn:El; [|simpl; discriminate].
  change (match find (fun e => String.eqb (e_name e) m) (rev es) with
          | Some e => e_bytes e | None => [] end)
    with (IndexFile.index_bytes es m).
  destruct (parse_csv (IndexFile.index_bytes es m)) as [rows err] eqn:Ep.
  set (drs := Dict.dict_rows rows).
  destruct (Rename.rename_rows rename_ok (extract_all dir es) drs)
    as [[dir2 ev2] raised] eqn:Er.
  simpl. intros Hm. injection Hm as <-. rewrite Ep. simpl.
  assert (Hin : In m (extract_all dir es)).
  { destruct (locate_some es m) as [pre [e [suf [Es [_ [Hname _]]]]]];
      [rewrite El; reflexivity|].
    rewrite <- Hname. apply extract_all_all. rewrite Es.
    apply in_or_app. right. left. reflexivity. }
  destruct (existsb (fun p => match Dict.present (Dict.get (fst p) (snd p) "File name") with
                             | Some v => String.eqb v m
                             | None => false
                             end) drs) eqn:Ex.
  - right. apply existsb_exists in Ex. destruct Ex as [[hdr r] [Hp Hv]].
    exists hdr, r. split; [exact Hp|]. simpl in Hv.
    destruct (Dict.present (Dict.get hdr r "File name")) as [v|]; [|discriminate].
    apply String.eqb_eq in Hv. subst. reflexivity.
  - left. change dir2 with (fst (fst (dir2, ev2, raised))). rewrite <- Er.
    apply rename_rows_keeps_gen; [exact Hin|].
    intros hdr r Hp Hv.
    assert (Ht : existsb (fun p => match Dict.present (Dict.get (fst p) (snd p) "File name") with
                             | Some v => String.eqb v m
                             | None => false
                             end) drs = true).
    { apply existsb_exists. exists (hdr, r). split; [exact Hp|]. simpl.
      rewrite Hv. apply String.eqb_refl. }
    congruence.
Qed.

Lemma index_survives_renaming_witness :
  let es := [{| e_name := "index.csv";
                e_bytes := Utf8.bytes_of_string "File name,Preferred,Last" |};
             {| e_name := "a.jpg"; e_bytes := [] |}] in
  let parse := fun _ : list Z =>
    ([["File name"; "Preferred"; "Last"]; ["a.jpg"; "Ann"; "Smith"]], false) in
  snd (fst (process_zip_archive parse Fixtures.rename_flat true es [])) =
    Some "index.csv" /\
  (In "index.csv" (fst (fst (process_zip_archive parse Fixtures.rename_flat true es []))) \/
   exists hdr r,
     In (hdr, r) (Dict.dict_rows (fst (parse (IndexFile.index_bytes es "index.csv")))) /\
     Dict.present (Dict.get hdr r "File name") = Some "index.csv").
Proof.
  intros es parse.
  assert (H : snd (fst (process_zip_archive parse Fixtures.rename_flat true es [])) =
                 Some "index.csv")
    by (vm_compute; reflexivity).
  split; [exact H|].
  apply (index_survives_renaming parse Fixtures.rename_flat es [] "index.csv" H).
Defined.

(** X5: the scan for the index logs a header decoding error exactly for the
    ".csv" entries (case-insensitively) met before the index whose first
    line is not valid UTF-8; the scan goes on after each of them. *)
Theorem locate_decode_errors (es : list entry) (n : string) :
  In (HeaderDecodeError n) (snd (locate es)) <->
  exists pre e suf, es = (pre ++ e :: suf)%list /\
    (forall e', In e' pre -> qualifies e' = false) /\
    endswith (lower (e_name e)) ".csv" = true /\
    Utf8.decode_all (bin_readline (e_bytes e)) = None /\
    e_name e = n.
Proof.
  induction es as [|e es IH].
  - simpl. split; [intros []|]. intros [pre [e [suf [E _]]]].
    destruct pre; discriminate.
  - assert (Hstep : forall P : Prop,
      (P <-> exists pre e0 suf, es = (pre ++ e0 :: suf)%list /\
          (forall e', In e' pre -> qualifies e' = false) /\
          endswith (lower (e_name e0)) ".csv" = true /\
          Utf8.decode_all (bin_readline (e_bytes e0)) = None /\ e_name e0 = n) ->
      qualifies e = false ->
      ~ (endswith (lower (e_name e)) ".csv" = true /\
         Utf8.decode_all (bin_readline (e_bytes e)) = None /\ e_name e = n) ->
      (P <-> exists pre e0 suf, (e :: es) = (pre ++ e0 :: suf)%list /\
          (forall e', In e' pre -> qualifies e' = false) /\
          endswith (lower (e_name e0)) ".csv" = true /\
          Utf8.decode_all (bin_readline (e_bytes e0)) = None /\ e_name e0 = n)).
    { intros P HP Hq Hnot. rewrite HP. split.
      - intros [pre [e0 [suf [E [A B]]]]]. exists (e :: pre), e0, suf.
        split; [rewrite E; reflexivity|]. split; [|exact B].
        intros e' [<-|He']; auto.
      - intros [[|e1 pre] [e0 [suf [E [A B]]]]]; simpl in E; injection E as E1 E2.
        + subst e0. contradiction.
        + subst e1. exists pre, e0, suf. split; [exact E2|]. split; [|exact B].
          intros e' He'. apply A. right. exact He'. }
    simpl. rewrite (qualifies_eq e) in Hstep.
    destruct (endswith (lower (e_name e)) ".csv") eqn:Ecsv.
    + destruct (Utf8.decode_all (bin_readline (e_bytes e))) as [hl|] eqn:Ed.
      * destruct (Utf8.contains Utf8.marker hl) eqn:Ec.
        -- simpl. split; [intros []|].
           intros [[|e1 pre] [e0 [suf [E [A [_ [B _]]]]]]]; simpl in E;
             injection E as E1 E2.
           ++ rewrite <- E1 in B. congruence.
           ++ assert (Hq := A e1 (or_introl eq_refl)). rewrite <- E1 in Hq.
              rewrite qualifies_eq, Ecsv, Ed, Ec in Hq. discriminate.
        -- apply Hstep; [exact IH|reflexivity|]. intros [_ [H _]]. discriminate.
      * destruct (locate es) as [res ev] eqn:El. simpl in *. split.
        -- intros [Hh|Hh].
           ++ injection Hh as <-. exists [], e, es. repeat split; auto.
              intros e' [].
           ++ apply IH in Hh. destruct Hh as [pre [e0 [suf [E [A B]]]]].
              exists (e :: pre), e0, suf. split; [rewrite E; reflexivity|].
              split; [|exact B]. intros e' [<-|He']; [|auto].
              rewrite qualifies_eq, Ecsv, Ed. reflexivity.
        -- intros [[|e1 pre] [e0 [suf [E [A [B [C D]]]]]]]; simpl in E;
             injection E as E1 E2.
           ++ left. rewrite E1, D. reflexivity.
           ++ right. apply IH. exists pre, e0, suf. repeat split; auto.
              intros e' He'. apply A. right. exact He'.
    + apply Hstep; [exact IH|reflexivity|]. intros [H _]. discriminate.
Qed.

End ZipExtra.

(** ** Aggregation *)

Module AggregateExtra.
Import Py Aggregate AggregateFacts.

Lemma collect_unreadable (bad : list idx_file) (files : list idx_file) :
  (forall f, In f bad -> if_rows f = []) ->
  forall mh mr,
  collect (bad ++ files) mh mr =
    let '(a, b, c) := collect files mh mr in
    (a, b, (map (fun f => ReadError (if_path f)) bad ++ c)%list).
Proof.
  induction bad as [|f bad IH]; intros Hbad mh mr; simpl.
  - destruct (collect files mh mr) as [[a b] c]. reflexivity.
  - unfold read_file at 1. rewrite (Hbad f (or_introl eq_refl)).
    rewrite IH by (intros g Hg; apply Hbad; right; exact Hg).
    destruct (collect files mh mr) as [[a b] c]. reflexivity.
Qed.

Lemma collect_no_sort_error (files : list idx_file) :
  forall mh mr, ~ In SortError (snd (collect files mh mr)).
Proof.
  induction files as [|fl fs IH]; intros mh mr; simpl; [intros []|].
  assert (Hr : forall mh mr, ~ In SortError (snd (read_file fl mh mr))).
  { intros mh' mr'. unfold read_file.
    destruct (if_rows fl) as [|header rest]; simpl.
    - intros [H|[]]; discriminate.
    - destruct mh' as [m|]; simpl.
      + intros H. apply in_app_or in H.
        destruct H as [H|H]; destruct (row_eqb header m), (if_error fl);
          simpl in H; intuition discriminate.
      + destruct (if_error fl); simpl; intuition discriminate. }
  specialize (Hr mh mr).
  destruct (read_file fl mh mr) as [[mh1 mr1] ev1].
  specialize (IH mh1 mr1).
  destruct (collect fs mh1 mr1) as [[mh2 mr2] ev2]. simpl in *.
  intros H. apply in_app_or in H. tauto.
Qed.

Lemma collect_set_errors (files : list idx_file) :
  forall m mr, (forall f, In f files -> if_rows f <> []) ->
  forall f, In f files -> if_error f = true ->
    In (ReadError (if_path f)) (snd (collect files (Some m) mr)).
Proof.
  induction files as [|fl fs IH]; intros m mr Hne f Hf Herr; [destruct Hf|].
  simpl. unfold read_file at 1.
  destruct (if_rows fl) as [|header rest] eqn:Er.
  { exfalso. apply (Hne fl); [left; reflexivity|exact Er]. }
  assert (Hne' : forall f, In f fs -> if_rows f <> [])
    by (intros g Hg; apply Hne; right; exact Hg).
  pose proof (IH m (mr ++ rest)%list Hne') as IH'.
  destruct (collect fs (Some m) (mr ++ rest)%list) as [[mh2 mr2] ev2]. simpl in *.
  apply in_or_app. destruct Hf as [<-|Hf].
  - left. apply in_or_app. right. rewrite Herr. left. reflexivity.
  - right. apply IH'; assumption.
Qed.

Lemma collect_first_errors (fl : idx_file) (fs : list idx_file) (h : row)
    (rest : list row) :
  if_rows fl = h :: rest -> (forall f, In f fs -> if_rows f <> []) ->
  forall f, In f (fl :: fs) -> if_error f = true ->
    In (ReadError (if_path f)) (snd (collect (fl :: fs) None [])).
Proof.
  intros Hfl Hne f Hf Herr. simpl. unfold read_file at 1. rewrite Hfl. simpl.
  pose proof (collect_set_errors fs h (h :: rest) Hne) as A.
  destruct (collect fs (Some h) (h :: rest)) as [[mh2 mr2] ev2]. simpl in *.
  destruct Hf as [<-|Hf].
  - rewrite Herr. left. reflexivity.
  - apply in_or_app. right. apply A; assumption.
Qed.

(** The master rows and log once the files are collected. *)
Lemma aggregate_out {str_lower : string -> string}
    (files : list idx_file) (h : row) (data : list row)
    (ev : list event) :
  collect files None [] = (Some h, h :: data, ev) ->
  exists out ev2, Permutation out data /\
    aggregate_index_csv str_lower files true = (Some (h :: out), (ev ++ ev2 ++ [Written])%list).
Proof.
  intros E. rewrite (aggregate_eq files true h data ev E).
  destruct data as [|r0 d'].
  - exists [], []. split; [constructor|reflexivity].
  - destruct (sort_rows str_lower h (r0 :: d')) as [s|] eqn:Es.
    + exists s, []. split; [apply sort_rows_perm with (1 := Es)|reflexivity].
    + exists (r0 :: d'), [SortError]. split; reflexivity.
Qed.

(** X6: index files that cannot be read (no row, e.g. a missing or empty
    file) are logged and skipped: the master header is the header of the
    first file that has one, and the data rows are those of that file and
    the files after it. *)
Theorem aggregate_first_readable_header (str_lower : string -> string)
    (bad : list idx_file) (fl : idx_file)
    (fs : list idx_file) (h : row) (rest : list row)
    (Hbad : forall f, In f bad -> if_rows f = [])
    (Hfl : if_rows fl = h :: rest)
    (Hread : forall f, In f fs -> if_rows f <> []) :
  (exists out,
     fst (aggregate_index_csv str_lower (bad ++ fl :: fs) true) = Some (h :: out) /\
     Permutation out (List.concat (map data_of (fl :: fs)))) /\
  forall f, In f bad ->
    In (ReadError (if_path f)) (snd (aggregate_index_csv str_lower (bad ++ fl :: fs) true)).
Proof.
  destruct (collect_first fl fs h rest Hfl Hread) as [ev [E _]].
  assert (E' : collect (bad ++ fl :: fs) None [] =
               (Some h, h :: List.concat (map data_of (fl :: fs)),
                (map (fun f => ReadError (if_path f)) bad ++ ev)%list)).
  { rewrite collect_unreadable by exact Hbad. rewrite E. reflexivity. }
  destruct (aggregate_out (str_lower := str_lower) _ _ _ _ E') as [out [ev2 [Hp Ea]]].
  rewrite Ea. simpl. split.
  - exists out. split; [reflexivity|exact Hp].
  - intros f Hf. rewrite <- app_assoc. apply in_or_app. left.
    apply in_map_iff. exists f. auto.
Qed.

Lemma aggregate_first_readable_header_witness :
  let missing := {| if_path := "a/index.csv"; if_rows := []; if_error := true |} in
  let good := {| if_path := "b/index.csv";
                 if_rows := [["File name"; "Preferred"; "Last"];
                             ["x.jpg"; "Bob"; "Zed"]];
                 if_error := false |} in
  (forall f, In f [missing] -> if_rows f = []) /\
  if_rows good = ["File name"; "Preferred"; "Last"] :: [["x.jpg"; "Bob"; "Zed"]] /\
  ((exists out,
     fst (aggregate_index_csv lower ([missing] ++ good :: []) true) =
       Some (["File name"; "Preferred"; "Last"] :: out) /\
     Permutation out (List.concat (map data_of (good :: [])))) /\
   forall f, In f [missing] ->
     In (ReadError (if_path f)) (snd (aggregate_index_csv lower ([missing] ++ good :: []) true))).
Proof.
  intros missing good.
  assert (H1 : forall f, In f [missing] -> if_rows f = [])
    by (intros f [<-|[]]; reflexivity).
  assert (H2 : if_rows good = ["File name"; "Preferred"; "Last"] :: [["x.jpg"; "Bob"; "Zed"]])
    by reflexivity.
  split; [exact H1|]. split; [exact H2|].
  apply (aggregate_first_readable_header lower [missing] good [] _ _ H1 H2).
  intros f [].
Defined.

(** X7: with no readable index file (none given, or all without rows) the
    master CSV is still written, empty (no header line), and each file is
    logged as a read error. *)
Theorem aggregate_no_readable (str_lower : string -> string)
    (files : list idx_file) (w : bool)
    (H : forall f, In f files -> if_rows f = []) :
  aggregate_index_csv str_lower files w =
    (if w then Some [] else None,
     (map (fun f => ReadError (if_path f)) files ++
      [if w then Written else WriteError])%list).
Proof.
  unfold aggregate_index_csv.
  pose proof (collect_unreadable files [] H None []) as E.
  rewrite app_nil_r in E. rewrite E. simpl. rewrite app_nil_r.
  destruct w; reflexivity.
Qed.

Lemma aggregate_no_readable_witness :
  (forall f, In f [{| if_path := "a/index.csv"; if_rows := []; if_error := true |}] ->
     if_rows f = []) /\
  aggregate_index_csv lower [{| if_path := "a/index.csv"; if_rows := []; if_error := true |}] true =
    (Some [], [ReadError "a/index.csv"; Written]).
Proof.
  assert (H : forall f, In f [{| if_path := "a/index.csv"; if_rows := []; if_error := true |}] ->
     if_rows f = []) by (intros f [<-|[]]; reflexivity).
  split; [exact H|]. apply (aggregate_no_readable lower _ true H).
Defined.

(** X8: when the index files hold a header but no data row, the master CSV
    is that header alone and no sort is attempted, so no sort error is
    logged even if the header lacks "Last", "Preferred" or "File name". *)
Theorem aggregate_header_only (str_lower : string -> string)
    (fl : idx_file) (fs : list idx_file) (h : row)
    (rest : list row) (w : bool)
    (Hfl : if_rows fl = h :: rest)
    (Hread : forall f, In f fs -> if_rows f <> [])
    (Hnodata : List.concat (map data_of (fl :: fs)) = []) :
  fst (aggregate_index_csv str_lower (fl :: fs) w) = (if w then Some [h] else None) /\
  ~ In SortError (snd (aggregate_index_csv str_lower (fl :: fs) w)).
Proof.
  destruct (collect_first fl fs h rest Hfl Hread) as [ev [E _]].
  rewrite Hnodata in E.
  pose proof (collect_no_sort_error (fl :: fs) None []) as Hns.
  rewrite E in Hns. simpl in Hns.
  rewrite (aggregate_eq _ w _ _ _ E). simpl.
  destruct w; simpl; (split; [reflexivity|]);
    intros H; apply in_app_or in H; destruct H as [H|[H|[]]];
    [contradiction|discriminate|contradiction|discriminate].
Qed.

Lemma aggregate_header_only_witness :
  let f := {| if_path := "a/index.csv"; if_rows := [["File name"; "Notes"]];
              if_error := false |} in
  if_rows f = ["File name"; "Notes"] :: [] /\
  List.concat (map data_of (f :: [])) = [] /\
  fst (aggregate_index_csv lower (f :: []) true) = Some [["File name"; "Notes"]] /\
  ~ In SortError (snd (aggregate_index_csv lower (f :: []) true)).
Proof.
  intros f.
  assert (H1 : if_rows f = ["File name"; "Notes"] :: []) by reflexivity.
  assert (H2 : List.concat (map data_of (f :: [])) = []) by reflexivity.
  split; [exact H1|]. split; [exact H2|].
  apply (aggregate_header_only lower f [] _ _ true H1 (fun g Hg => match Hg with end) H2).
Defined.

(** X9: an index file whose reading raises after some rows (a decoding
    error further down, say) is logged as a read error, and the rows read
    before the error are kept in the master CSV. *)
Theorem aggregate_partial_file_kept (str_lower : string -> string)
    (fl : idx_file) (fs : list idx_file)
    (h : row) (rest : list row)
    (Hfl : if_rows fl = h :: rest)
    (Hread : forall f, In f fs -> if_rows f <> []) :
  (forall f, In f (fl :: fs) -> if_error f = true ->
     In (ReadError (if_path f)) (snd (aggregate_index_csv str_lower (fl :: fs) true)) /\
     incl (data_of f) (tl (match fst (aggregate_index_csv str_lower (fl :: fs) true) with
                           | Some rows => rows
                           | None => []
                           end))).
Proof.
  destruct (collect_first fl fs h rest Hfl Hread) as [ev [E _]].
  pose proof (collect_first_errors fl fs h rest Hfl Hread) as Errs.
  rewrite E in Errs. simpl in Errs.
  destruct (aggregate_out (str_lower := str_lower) _ _ _ _ E) as [out [ev2 [Hp Ea]]].
  rewrite Ea. simpl. intros f Hf Herr. split.
  - apply in_or_app. left. apply Errs; assumption.
  - intros r Hr. apply (Permutation_in _ (Permutation_sym Hp)).
    apply in_concat. exists (data_of f). split; [|exact Hr].
    apply in_map. exact Hf.
Qed.

Lemma aggregate_partial_file_kept_witness :
  let f := {| if_path := "a/index.csv";
              if_rows := [["File name"; "Preferred"; "Last"]; ["x.jpg"; "Bob"; "Zed"]];
              if_error := true |} in
  if_rows f = ["File name"; "Preferred"; "Last"] :: [["x.jpg"; "Bob"; "Zed"]] /\
  (forall g, In g (f :: []) -> if_error g = true ->
     In (ReadError (if_path g)) (snd (aggregate_index_csv lower (f :: []) true)) /\
     incl (data_of g) (tl (match fst (aggregate_index_csv lower (f :: []) true) with
                           | Some rows => rows
                           | None => []
                           end))).
Proof.
  intros f.
  assert (H1 : if_rows f = ["File name"; "Preferred"; "Last"] :: [["x.jpg"; "Bob"; "Zed"]])
    by reflexivity.
  split; [exact H1|].
  apply (aggregate_partial_file_kept lower f [] _ _ H1 (fun g Hg => match Hg with end)).
Defined.

End AggregateExtra.

(** ** Stability of the sort *)

Module SortExtra.
Import Py Aggregate AggregateFacts Observe.

Lemma key_compare_refl (a : key) : key_compare a a = Eq.
Proof.
  pose proof (key_compare_antisym a a) as H.
  destruct (key_compare a a); simpl in H; congruence.
Qed.

Lemma key_compare_eq (a b : key) : key_compare a b = Eq -> a = b.
Proof.
  destruct a as [[a1 a2] a3], b as [[b1 b2] b3]. simpl.
  destruct (String.compare a1 b1) eqn:E1; try discriminate.
  destruct (String.compare a2 b2) eqn:E2; try discriminate.
  intros E3. apply String.compare_eq_iff in E1, E2, E3. subst. reflexivity.
Qed.

Lemma insert_split (x : key * row) (l : list (key * row)) :
  exists l1 l2, l = (l1 ++ l2)%list /\ insert x l = (l1 ++ x :: l2)%list /\
    forall y, In y l1 -> key_le (fst x) (fst y) = false.
Proof.
  induction l as [|y l IH]; simpl.
  - exists [], []. repeat split. intros y [].
  - destruct (key_le (fst x) (fst y)) eqn:E.
    + exists [], (y :: l). repeat split. intros z [].
    + destruct IH as [l1 [l2 [A [B C]]]]. exists (y :: l1), l2.
      rewrite B, A. repeat split. intros z [<-|Hz]; auto.
Qed.

Lemma insert_filter (k : key) (x : key * row) (l : list (key * row)) :
  filter (same k) (insert x l) = filter (same k) (x :: l).
Proof.
  destruct (insert_split x l) as [l1 [l2 [A [B C]]]].
  rewrite B, A. simpl. rewrite !filter_app. simpl.
  destruct (same k x) eqn:Ex; [|reflexivity].
  assert (Hl1 : filter (same k) l1 = []).
  { clear A B. induction l1 as [|y l1 IH]; [reflexivity|]. simpl.
    rewrite IH by (intros z Hz; apply C; right; exact Hz).
    destruct (same k y) eqn:Ey; [|reflexivity]. exfalso.
    unfold same in Ex, Ey.
    destruct (key_compare (fst x) k) eqn:Exk; try discriminate.
    destruct (key_compare (fst y) k) eqn:Eyk; try discriminate.
    apply key_compare_eq in Exk, Eyk.
    pose proof (C y (or_introl eq_refl)) as Cy. unfold key_le in Cy.
    rewrite Exk, <- Eyk, key_compare_refl in Cy. discriminate. }
  rewrite Hl1. reflexivity.
Qed.

Lemma isort_filter (k : key) (l : list (key * row)) :
  filter (same k) (isort l) = filter (same k) l.
Proof.
  induction l as [|x l IH]; [reflexivity|]. simpl.
  rewrite insert_filter. simpl. rewrite IH. reflexivity.
Qed.

Lemma map_filter_keyed {str_lower : string -> string}
    (li pi fi : nat) (k : key) (l : list (key * row)) :
  (forall p, In p l -> row_key str_lower li pi fi (snd p) = Some (fst p)) ->
  filter (fun r => match row_key str_lower li pi fi r with
                   | Some k' => match key_compare k' k with Eq => true | _ => false end
                   | None => false
                   end) (map snd l) =
  map snd (filter (same k) l).
Proof.
  induction l as [|p l IH]; intros H; [reflexivity|]. simpl.
  rewrite (H p (or_introl eq_refl)). unfold same.
  rewrite IH by (intros q Hq; apply H; right; exact Hq).
  destruct (key_compare (fst p) k); reflexivity.
Qed.

(** X10: the sort is stable: the rows that share one sort key (the
    Last, Preferred and File name, lower-cased by [str_lower], which
    stands for Python's [str.lower]) come out in the order they had in the
    concatenation of the index files. *)
Theorem aggregate_sort_stable (str_lower : string -> string)
    (h : row) (data s : list row) (li pi fi : nat)
    (k : key)
    (Hs : sort_rows str_lower h data = Some s)
    (Hli : index_of "Last" h = Some li)
    (Hpi : index_of "Preferred" h = Some pi)
    (Hfi : index_of "File name" h = Some fi) :
  filter (fun r => match row_key str_lower li pi fi r with
                   | Some k' => match key_compare k' k with Eq => true | _ => false end
                   | None => false
                   end) s =
  filter (fun r => match row_key str_lower li pi fi r with
                   | Some k' => match key_compare k' k with Eq => true | _ => false end
                   | None => false
                   end) data.
Proof.
  revert Hs. unfold sort_rows. rewrite Hli, Hpi, Hfi.
  destruct (decorate str_lower li pi fi data) as [d|] eqn:Ed; [|discriminate].
  intros H. injection H as <-.
  destruct (decorate_spec li pi fi data d Ed) as [E A].
  rewrite <- E.
  rewrite !map_filter_keyed.
  - rewrite isort_filter. reflexivity.
  - exact A.
  - intros p Hp. apply A. eapply Permutation_in; [apply isort_perm|exact Hp].
Qed.

Lemma aggregate_sort_stable_witness :
  let hdr := ["File name"; "Preferred"; "Last"] in
  let data := [["x.jpg"; Fixtures.JOSE_upper; "Smith"]; ["a.jpg"; "Bob"; "Jones"];
               ["x.jpg"; Fixtures.Jose_mixed; "Smith"]] in
  let out := [["a.jpg"; "Bob"; "Jones"]; ["x.jpg"; Fixtures.JOSE_upper; "Smith"];
              ["x.jpg"; Fixtures.Jose_mixed; "Smith"]] in
  let k : key := ("smith", Fixtures.lower_latin1 Fixtures.Jose_mixed, "x.jpg") in
  let P := fun r => match row_key Fixtures.lower_latin1 2 1 0 r with
                    | Some k' => match key_compare k' k with
                                 | Eq => true | _ => false end
                    | None => false
                    end in
  sort_rows Fixtures.lower_latin1 hdr data = Some out /\ filter P out = filter P data.
Proof.
  intros hdr data out k P.
  assert (H : sort_rows Fixtures.lower_latin1 hdr data = Some out) by (vm_compute; reflexivity).
  split; [exact H|].
  apply (aggregate_sort_stable Fixtures.lower_latin1 hdr data out 2 1 0 k H); reflexivity.
Defined.

End SortExtra.

(** ** The download *)

Module SftpExtra.
Import Py Sftp.

Lemma download_loop_fst (env : sftp_env) (d : string) (fs : list string) :
  fst (download_loop env d fs) = map (path_join d) (filter (get_ok env) fs).
Proof.
  induction fs as [|f fs IH]; [reflexivity|]. simpl.
  destruct (get_ok env f);
  destruct (download_loop env d fs) as [rest ev'] eqn:El; simpl in *;
  rewrite IH; reflexivity.
Qed.

(** X11: [download_files_from_sftp] returns the local paths of the files
    that match the mask and whose download succeeded, in the order of the
    server's listing; it returns an empty list when the connection or the
    listing fails or the local directory cannot be created. *)
Theorem sftp_downloaded_list (env : sftp_env) (d : string) :
  fst (download_files_from_sftp env d) =
    if connect_ok env && local_dir_ok env then
      match listing env with
      | Some files => map (path_join d) (filter (get_ok env) (filter (mask env) files))
      | None => []
      end
    else [].
Proof.
  unfold download_files_from_sftp.
  destruct (connect_ok env); simpl; [|reflexivity].
  destruct (listing env) as [files|]; [|destruct (local_dir_ok env); reflexivity].
  destruct (filter (mask env) files) as [|f0 m'] eqn:Em.
  - destruct (local_dir_ok env); reflexivity.
  - destruct (local_dir_ok env); [|reflexivity].
    exact (download_loop_fst env d (f0 :: m')).
Qed.

End SftpExtra.

(** ** The top level *)

Module MainExtra.
Import Py Upload Main MainFacts Observe.

Lemma upload_entries_ok (a : archive) (l : list dir_entry) :
  forallb (entry_ok a) l = true -> forall tr,
  exists tr', upload_entries a l tr = (Some tt, (tr ++ tr')%list) /\
    drive_calls tr' = map d_name (filter (fun d => d_isfile d && negb (skip_pred d)) l).
Proof.
  induction l as [|d l IH]; intros H tr; simpl.
  - exists []. rewrite app_nil_r. split; reflexivity.
  - simpl in H. apply andb_true_iff in H. destruct H as [Hd Hl].
    unfold bind at 1. unfold entry_ok in Hd.
    destruct (d_isfile d && negb (skip_pred d)) eqn:E; simpl in Hd |- *.
    + unfold upload_file_to_drive, bind, emit. rewrite Hd.
      set (y := if a_create_ok a (d_name d) then UploadDone (d_name d)
                else UploadError (d_name d)).
      destruct (IH Hl (tr ++ [UploadCall (d_name d); y])%list) as [tr' [E1 E2]].
      exists ([UploadCall (d_name d); y] ++ tr')%list. split.
      * rewrite app_assoc, <- E1. unfold y.
        destruct (a_create_ok a (d_name d)); simpl; rewrite <- app_assoc; reflexivity.
      * unfold drive_calls in *. simpl. rewrite E2.
        unfold y. destruct (a_create_ok a (d_name d)); reflexivity.
    + destruct (IH Hl tr) as [tr' [E1 E2]]. exists tr'. split; assumption.
Qed.

Lemma uploaded_filter (l : list dir_entry) :
  uploaded l = map d_name (filter (fun d => d_isfile d && negb (skip_pred d)) l).
Proof.
  unfold uploaded, Upload.upload_extracted_files.
  induction l as [|d l IH]; [reflexivity|].
  simpl flat_map at 2. rewrite flat_map_app, IH. simpl filter.
  unfold file_step, skip_pred.
  destruct (d_isfile d); simpl; [|reflexivity].
  destruct (endswith (lower (d_name d)) ".csv"); simpl; [|reflexivity].
  destruct (text_readline chunk_size (d_bytes d)) as [l'|]; simpl; [|reflexivity].
  destruct (Utf8.contains Utf8.marker l'); reflexivity.
Qed.

Lemma process_archives_ok (zs : list archive) :
  forallb archive_ok zs = true -> forall acc tr,
  exists tr',
    process_archives zs acc tr =
      (Some (acc ++ flat_map (fun a => match a_index a with
                                      | Some p => [p] | None => [] end) zs)%list,
       (tr ++ tr')%list) /\
    drive_calls tr' =
      flat_map (fun a => match a_listing a with
                         | Some l => uploaded l | None => [] end) zs.
Proof.
  induction zs as [|a zs IH]; intros H acc tr; simpl.
  - exists []. rewrite !app_nil_r. split; reflexivity.
  - simpl in H. apply andb_true_iff in H. destruct H as [Ha Hzs].
    unfold archive_ok in Ha. apply andb_true_iff in Ha. destruct Ha as [Hdir Hl].
    rewrite Hdir. unfold bind, upload_extracted_files.
    destruct (a_listing a) as [l|]; [|discriminate].
    destruct (upload_entries_ok a l Hl tr) as [t1 [E1 C1]]. rewrite E1.
    destruct (IH Hzs (match a_index a with Some p => (acc ++ [p])%list | None => acc end)
                (tr ++ t1)%list) as [t2 [E2 C2]].
    rewrite E2. exists (t1 ++ t2)%list. split.
    + destruct (a_index a); simpl; rewrite <- !app_assoc; reflexivity.
    + unfold drive_calls in *. rewrite flat_map_app, C1, C2, uploaded_filter.
      reflexivity.
Qed.

(** X12: when no archive hits an unguarded failure,
    [process_all_zip_archives] returns the index paths found, one per
    archive that has one, in the order of the archives. *)
Theorem process_all_indexes (zs : list archive) (tr : list ev)
    (H : forallb archive_ok zs = true) :
  fst (process_all_zip_archives zs tr) =
    Some (flat_map (fun a => match a_index a with Some p => [p] | None => [] end) zs).
Proof.
  unfold process_all_zip_archives.
  destruct zs as [|a zs']; [reflexivity|].
  destruct (process_archives_ok (a :: zs') H [] tr) as [tr' [E _]].
  rewrite E. reflexivity.
Qed.

Lemma process_all_indexes_witness :
  forallb archive_ok [Fixtures.arch_good; Fixtures.arch_good] = true /\
  fst (process_all_zip_archives [Fixtures.arch_good; Fixtures.arch_good] []) =
    Some ["b/index.csv"; "b/index.csv"].
Proof.
  assert (H : forallb archive_ok [Fixtures.arch_good; Fixtures.arch_good] = true)
    by reflexivity.
  split; [exact H|]. apply (process_all_indexes _ [] H).
Defined.

(** X13: a run that reaches its end has sent to Drive exactly the files
    [upload_extracted_files] selects in each archive, archive after
    archive, and then the master CSV; the aggregation comes right before
    the master CSV's upload and the cleanup comes last. *)
Theorem main_finished_trace (env : run_env)
    (H : fst (main env) = Finished) :
  drive_calls (snd (main env)) =
    (flat_map (fun a => match a_listing a with
                        | Some l => uploaded l | None => [] end) (zip_files env) ++
     ["photos_uploaded.csv"])%list /\
  exists pre x, snd (main env) =
    (pre ++ [Aggregated; UploadCall "photos_uploaded.csv"; x; CleanedUp])%list.
Proof.
  revert H. unfold main.
  destruct (downloaded env) as [|x0 xs]; [discriminate|].
  destruct (drive_ok env); [|discriminate].
  unfold bind, emit, raise, upload_file_to_drive.
  destruct (process_all_zip_archives (zip_files env) []) as [[idx|] tr] eqn:Ep;
    [|discriminate].
  assert (Hok : forallb archive_ok (zip_files env) = true).
  { destruct (forallb archive_ok (zip_files env)) eqn:Ef; [reflexivity|].
    apply (process_all_fst (zip_files env) []) in Ef. rewrite Ep in Ef. discriminate. }
  assert (Htr : drive_calls tr =
    flat_map (fun a => match a_listing a with
                       | Some l => uploaded l | None => [] end) (zip_files env)).
  { unfold process_all_zip_archives in Ep.
    destruct (zip_files env) as [|a zs'] eqn:Ez; [injection Ep as _ <-; reflexivity|].
    destruct (process_archives_ok (a :: zs') Hok [] []) as [tr' [E C]].
    rewrite E in Ep. injection Ep as _ <-. exact C. }
  destruct (consolidated_ok env); [|discriminate].
  destruct (master_write_ok env); [|discriminate].
  destruct (cleanup_list_ok env);
    [|destruct (master_create_ok env); simpl; discriminate].
  intros _.
  destruct (master_create_ok env); simpl; rewrite <- !app_assoc; simpl;
    (split; [|eexists; eexists; reflexivity]);
    unfold drive_calls in *; rewrite flat_map_app, Htr; reflexivity.
Qed.

Lemma main_finished_trace_witness :
  let env := {| downloaded := ["b.zip"]; drive_ok := true;
                zip_files := [Fixtures.arch_good]; consolidated_ok := true;
                master_write_ok := true; master_create_ok := true;
                cleanup_list_ok := true |} in
  fst (main env) = Finished /\
  drive_calls (snd (main env)) =
    (flat_map (fun a => match a_listing a with
                        | Some l => uploaded l | None => [] end) (zip_files env) ++
     ["photos_uploaded.csv"])%list /\
  exists pre x, snd (main env) =
    (pre ++ [Aggregated; UploadCall "photos_uploaded.csv"; x; CleanedUp])%list.
Proof.
  intros env.
  assert (H : fst (main env) = Finished) by (vm_compute; reflexivity).
  split; [exact H|]. apply (main_finished_trace env H).
Defined.

End MainExtra.

(** ** Cleanup *)

Module CleanupExtra.
Import Py Cleanup.

(** X14: [cleanup_directory] on an existing directory keeps exactly the
    log files ("log-*.log"), the entries that are neither file, link nor
    directory, and the entries whose deletion failed; each log file is
    logged as preserved and each failed deletion is logged, and the loop
    goes on after it. *)
Theorem cleanup_directory_spec (l : list centry) :
  exists l', fst (cleanup_directory (Some l)) = Some l' /\
  (forall e, In e l' <->
     In e l /\ (is_log (c_name e) = true \/ c_kind e = KOther \/
                c_delete_ok e = false)) /\
  (forall e, In e l -> is_log (c_name e) = true ->
     In (Preserved (c_name e)) (snd (cleanup_directory (Some l)))) /\
  (forall e, In e l -> is_log (c_name e) = false -> c_kind e <> KOther ->
     c_delete_ok e = false ->
     In (DeleteFailed (c_name e)) (snd (cleanup_directory (Some l)))).
Proof.
  simpl. eexists. split; [reflexivity|]. split; [|split].
  - intros e. rewrite in_flat_map. split.
    + intros [e0 [He0 Hin]]. unfold cleanup_entry in Hin.
      destruct (is_log (c_name e0)) eqn:El.
      * destruct Hin as [<-|[]]. auto.
      * destruct (c_kind e0) eqn:Ek; try (destruct (c_delete_ok e0) eqn:Ed);
          simpl in Hin; try contradiction;
          destruct Hin as [<-|[]]; auto.
    + intros [He Hc]. exists e. split; [exact He|]. unfold cleanup_entry.
      destruct (is_log (c_name e)) eqn:El; [left; reflexivity|].
      destruct Hc as [Hc|[Hc|Hc]]; [discriminate| |].
      * rewrite Hc. left. reflexivity.
      * rewrite Hc. destruct (c_kind e); left; reflexivity.
  - intros e He Hl. apply in_flat_map. exists e. split; [exact He|].
    unfold cleanup_entry. rewrite Hl. left. reflexivity.
  - intros e He Hl Hk Hd. apply in_flat_map. exists e. split; [exact He|].
    unfold cleanup_entry. rewrite Hl, Hd.
    destruct (c_kind e); try (left; reflexivity). contradiction.
Qed.

End CleanupExtra.
